(** * AIProjectEvaluator: the hybrid extraction-and-scoring pipeline

    A shallow embedding of [ai_data_extraction.py] and
    [manual_data_extraction.py]: the response cache and the retrying client
    ([ChatGPTClient]), the criteria extractor, the metadata-and-score
    extractor and the rule-based adjuster, followed by the properties the
    specification states about them.

    Python values are modelled as the code sees them: a [str] is its sequence
    of code points, a JSON document is a tree of [json] values, a raised
    exception is a [Raise] result.  Library calls whose behaviour is outside
    the repository ([json.loads], [re.sub], [str.lower], [hashlib.sha256],
    the regular-expression searches of the fallback extractor, float
    formatting and float addition) are fields of the [Runtime] class; every
    theorem holds for all of its instances. *)

From Stdlib Require Import ZArith NArith QArith List String Ascii Lia Bool.
From stdpp Require Import gmap list.

Import ListNotations.
Local Open Scope Z_scope.

Set Warnings "-register-all".

(** ** Python strings *)

Module Py.

(** A [str] is a sequence of Unicode code points. *)
Definition pystr : Type := list N.

Fixpoint bytes_of_string (s : string) : list N :=
  match s with
  | EmptyString => []
  | String a s' => N_of_ascii a :: bytes_of_string s'
  end.

(** UTF-8 decoding of the bytes of a literal, so that the constants of the
    source can be written as they stand there. *)
Fixpoint utf8_decode (bs : list N) : pystr :=
  match bs with
  | [] => []
  | b :: r =>
    if (b <? 128)%N then b :: utf8_decode r
    else if (b <? 224)%N then
      match r with
      | b1 :: r1 => (N.land b 31 * 64 + N.land b1 63)%N :: utf8_decode r1
      | _ => [b]
      end
    else if (b <? 240)%N then
      match r with
      | b1 :: b2 :: r2 =>
        (N.land b 15 * 4096 + N.land b1 63 * 64 + N.land b2 63)%N :: utf8_decode r2
      | _ => [b]
      end
    else
      match r with
      | b1 :: b2 :: b3 :: r3 =>
        (N.land b 7 * 262144 + N.land b1 63 * 4096 + N.land b2 63 * 64
         + N.land b3 63)%N :: utf8_decode r3
      | _ => [b]
      end
  end.

Definition u (s : string) : pystr := utf8_decode (bytes_of_string s).

Arguments u : simpl never.

(** [str.isspace] on one code point: the characters [str.strip], [str.split]
    and the pattern [\s] treat as white space. *)
Definition isspace (c : N) : bool :=
  ((9 <=? c) && (c <=? 13) || (28 <=? c) && (c <=? 32) || (c =? 133)
   || (c =? 160) || (c =? 5760) || (8192 <=? c) && (c <=? 8202)
   || (c =? 8232) || (c =? 8233) || (c =? 8239) || (c =? 8287)
   || (c =? 12288))%N.

Fixpoint lstrip (s : pystr) : pystr :=
  match s with
  | [] => []
  | c :: r => if isspace c then lstrip r else s
  end.

(** [s.strip()] *)
Definition strip (s : pystr) : pystr := rev (lstrip (rev (lstrip s))).

(** [s.split()]: the maximal runs of characters that are not white space.
    [cur] is the word being read, reversed. *)
Fixpoint split_ws_aux (cur : pystr) (s : pystr) : list pystr :=
  match s with
  | [] => match cur with [] => [] | _ => [rev cur] end
  | c :: r =>
    if isspace c
    then match cur with [] => split_ws_aux [] r | _ => rev cur :: split_ws_aux [] r end
    else split_ws_aux (c :: cur) r
  end.

Definition split (s : pystr) : list pystr := split_ws_aux [] s.

(** [re.split(r'[.!?]', s)]: the segments between sentence terminators. *)
Definition is_terminator (c : N) : bool := ((c =? 46) || (c =? 33) || (c =? 63))%N.

Fixpoint re_split_aux (cur : pystr) (s : pystr) : list pystr :=
  match s with
  | [] => [rev cur]
  | c :: r => if is_terminator c then rev cur :: re_split_aux [] r
              else re_split_aux (c :: cur) r
  end.

Definition re_split_terminators (s : pystr) : list pystr := re_split_aux [] s.

(** [a == b] for two strings. *)
Fixpoint pystr_eqb (a b : pystr) : bool :=
  match a, b with
  | [], [] => true
  | x :: a', y :: b' => (x =? y)%N && pystr_eqb a' b'
  | _, _ => false
  end.

Fixpoint starts_with (p s : pystr) : bool :=
  match p, s with
  | [], _ => true
  | _ :: _, [] => false
  | a :: p', b :: s' => (a =? b)%N && starts_with p' s'
  end.

(** [p in s] for two strings: [p] occurs in [s] as a substring. *)
Fixpoint contains (p s : pystr) : bool :=
  starts_with p s || match s with [] => false | _ :: r => contains p r end.

(** [s[:n]] *)
Definition prefix (n : nat) (s : pystr) : pystr := firstn n s.

End Py.

Import Py.

(** ** Python values *)

(** A [float]: the code only compares floats with integers and hands them to
    the float operations of the runtime, so a finite float is kept as the
    rational it denotes. *)
Inductive pyfloat :=
| FNan
| FInf (negative : bool)
| FFin (q : Q).

(** The values [json.loads] and [response.json()] produce.  An object keeps
    its items in order; a lookup takes the first item with the key. *)
Inductive json :=
| JNull
| JBool (b : bool)
| JInt (z : Z)
| JFloat (f : pyfloat)
| JStr (s : pystr)
| JArr (items : list json)
| JObj (fields : list (pystr * json)).

(** The exception classes the code raises, tests for or lets through. *)
Inductive exn :=
| TypeError
| KeyError
| IndexError
| AttributeError
| ValueError
| JSONDecodeError
| FileNotFoundError
| ClientResponseError (status : Z)
| ClientError
| TimeoutError
| HTTPException (status_code : Z).

(** A computation that returns a value or raises. *)
Inductive res (A : Type) :=
| Ok (a : A)
| Raise (e : exn).

Arguments Ok {A} a.
Arguments Raise {A} e.

Definition bind {A B} (m : res A) (f : A -> res B) : res B :=
  match m with
  | Ok a => f a
  | Raise e => Raise e
  end.

Notation "x <- m ;; k" := (bind m (fun x => k))
  (at level 100, m at next level, right associativity).

Definition is_ok {A} (m : res A) : bool :=
  match m with Ok _ => true | Raise _ => false end.

(** [d.get(k)] on the items of an object. *)
Fixpoint assoc (k : pystr) (l : list (pystr * json)) : option json :=
  match l with
  | [] => None
  | (k', v) :: r => if pystr_eqb k k' then Some v else assoc k r
  end.

(** [bool(v)] *)
Definition truthy (v : json) : bool :=
  match v with
  | JNull => false
  | JBool b => b
  | JInt z => negb (z =? 0)
  | JFloat FNan => true
  | JFloat (FInf _) => true
  | JFloat (FFin q) => negb (Qnum q =? 0)
  | JStr s => match s with [] => false | _ => true end
  | JArr l => match l with [] => false | _ => true end
  | JObj l => match l with [] => false | _ => true end
  end.

Definition is_str_eq (k : pystr) (v : json) : bool :=
  match v with JStr s => pystr_eqb k s | _ => false end.

(** [k in v] for a string [k]: key test on a dict, element test on a list,
    substring test on a string, [TypeError] on anything else. *)
Definition py_in (k : pystr) (v : json) : res bool :=
  match v with
  | JObj l => Ok (match assoc k l with Some _ => true | None => false end)
  | JArr l => Ok (existsb (is_str_eq k) l)
  | JStr s => Ok (contains k s)
  | _ => Raise TypeError
  end.

(** [v[k]] for a string [k]. *)
Definition getitem_str (v : json) (k : pystr) : res json :=
  match v with
  | JObj l => match assoc k l with Some x => Ok x | None => Raise KeyError end
  | _ => Raise TypeError
  end.

(** [v[0]]: the first element of a list, the first character of a string;
    a dict from JSON has no integer key. *)
Definition getitem_0 (v : json) : res json :=
  match v with
  | JArr (x :: _) => Ok x
  | JArr [] => Raise IndexError
  | JStr (c :: _) => Ok (JStr [c])
  | JStr [] => Raise IndexError
  | JObj _ => Raise KeyError
  | _ => Raise TypeError
  end.

Definition is_dict (v : json) : bool := match v with JObj _ => true | _ => false end.
Definition is_list (v : json) : bool := match v with JArr _ => true | _ => false end.
Definition is_str (v : json) : bool := match v with JStr _ => true | _ => false end.

(** [isinstance(v, int)]: [bool] is a subclass of [int]. *)
Definition is_int (v : json) : bool :=
  match v with JInt _ | JBool _ => true | _ => false end.

(** [v.get(k, d)] on a dict. *)
Definition get_or (l : list (pystr * json)) (k : pystr) (d : json) : json :=
  match assoc k l with Some x => x | None => d end.

Definition dict_get (v : json) (k : pystr) (d : json) : res json :=
  match v with
  | JObj l => Ok (get_or l k d)
  | _ => Raise AttributeError
  end.

Definition Z_of_bool (b : bool) : Z := if b then 1 else 0.

(** [q > z] and [q < z] for a finite float and an integer, exactly. *)
Definition Qgtb_Z (q : Q) (z : Z) : bool := z * Zpos (Qden q) <? Qnum q.
Definition Qltb_Z (q : Q) (z : Z) : bool := Qnum q <? z * Zpos (Qden q).
Definition Qeqb_Z (q : Q) (z : Z) : bool := Qnum q =? z * Zpos (Qden q).

(** [v > z] for an integer [z]; comparing anything but a number with an
    [int] raises [TypeError]. *)
Definition py_gt (v : json) (z : Z) : res bool :=
  match v with
  | JInt a => Ok (z <? a)
  | JBool b => Ok (z <? Z_of_bool b)
  | JFloat FNan => Ok false
  | JFloat (FInf negative) => Ok (negb negative)
  | JFloat (FFin q) => Ok (Qgtb_Z q z)
  | _ => Raise TypeError
  end.

(** [v < z] *)
Definition py_lt (v : json) (z : Z) : res bool :=
  match v with
  | JInt a => Ok (a <? z)
  | JBool b => Ok (Z_of_bool b <? z)
  | JFloat FNan => Ok false
  | JFloat (FInf negative) => Ok negative
  | JFloat (FFin q) => Ok (Qltb_Z q z)
  | _ => Raise TypeError
  end.

(** [v == z] for an integer [z]: never raises. *)
Definition py_eq_int (v : json) (z : Z) : bool :=
  match v with
  | JInt a => a =? z
  | JBool b => Z_of_bool b =? z
  | JFloat (FFin q) => Qeqb_Z q z
  | _ => false
  end.

(** [max(0, v)]: the built-in keeps its first argument unless a later one is
    greater. *)
Definition py_max0 (v : json) : res json :=
  b <- py_gt v 0 ;; Ok (if b then v else JInt 0).

(** [min(v, m)] for an integer [m]: [v] unless [m < v]. *)
Definition py_min (v : json) (m : Z) : res json :=
  b <- py_gt v m ;; Ok (if b then JInt m else v).



(** ** The runtime *)

(** The library calls of the two modules.  [json_loads] is [None] where
    [json.loads] raises [JSONDecodeError]; [re_sub_code_fence] is
    [re.sub(r'^```json\s*|\s*```$', '', s, flags=re.MULTILINE)];
    [format_value] is the text an f-string gives a value;
    [re_finditer_criteria i s] lists, for the [i]-th pattern of
    [extract_criteria_fallback], [group(1)] and [int(group(2) or group(3))]
    of every match in [s]; [re_search_total] is the number captured by the
    declared-total pattern, if it matches. *)
Class Runtime := {
  json_loads : pystr -> option json;
  re_sub_code_fence : pystr -> pystr;
  str_lower : pystr -> pystr;
  sha256_hexdigest : pystr -> pystr;
  format_value : json -> pystr;
  float_repr_len : pyfloat -> N;
  float_add : pyfloat -> pyfloat -> pyfloat;
  float_of_int : Z -> pyfloat;
  re_finditer_criteria : nat -> pystr -> list (pystr * N);
  re_search_total : pystr -> option N
}.

(** ** manual_data_extraction.py *)

(** A rubric criterion: [{"name": ..., "max_score": ...}]. *)
Record criterion := { name : pystr; max_score : Z }.

Section Manual.

Context {rt : Runtime}.

(** [evaluate_work_fallback]: one below the maximum and never less than 1,
    written into the dict in the order of the list (a later criterion of the
    same name overwrites an earlier one). *)
Definition fallback_score (c : criterion) : Z := Z.max 1 (max_score c - 1).

Definition evaluate_work_fallback (criteria : list criterion) : gmap pystr json :=
  fold_left (fun scores c => <[name c := JInt (fallback_score c)]> scores) criteria ∅.

(** [generate_recommendations_fallback]: the two fixed recommendations. *)
Definition fallback_recommendation_1 : pystr :=
  u "Углубите анализ результатов исследования. Это повысит их научную ценность.".

Definition fallback_recommendation_2 : pystr :=
  u "Добавьте визуальные элементы для наглядности. Это улучшит восприятие проекта.".

Definition generate_recommendations_fallback (filename : pystr) : list json :=
  [JStr fallback_recommendation_1; JStr fallback_recommendation_2].

(** [adjust_scores_with_rules] *)
Definition novelty_name : pystr := u "актуальность изобретения, новизна решения".
Definition formatting_name : pystr := u "грамотность и качество оформления работы".

Definition keywords : list pystr :=
  map u ["новый"; "инновационный"; "уникальный"; "впервые"; "актуально";
         "современно"; "проблема"; "решение"]%string.

Definition structure_keywords : list pystr :=
  map u ["введение"; "заключение"; "цель"; "задачи"; "оглавление"]%string.

(** [any(keyword in text_lower for keyword in kws)] *)
Definition any_keyword (kws : list pystr) (text_lower : pystr) : bool :=
  existsb (fun keyword => contains keyword text_lower) kws.

(** One iteration of the loop over the criteria. *)
Definition adjust_step (text_lower : pystr) (adjusted_scores : gmap pystr Z)
    (crit : criterion) : gmap pystr Z :=
  let crit_name := name crit in
  let current_score := default 0 (adjusted_scores !! crit_name) in
  if pystr_eqb crit_name novelty_name then
    if any_keyword keywords text_lower
    then <[crit_name := Z.min (max_score crit) (current_score + 1)]> adjusted_scores
    else <[crit_name := Z.max 0 (current_score - 1)]> adjusted_scores
  else if pystr_eqb crit_name formatting_name then
    if any_keyword structure_keywords text_lower
    then <[crit_name := Z.min (max_score crit) (current_score + 1)]> adjusted_scores
    else <[crit_name := Z.max 0 (current_score - 1)]> adjusted_scores
  else adjusted_scores.

Definition adjust_scores_with_rules (text : pystr) (scores : gmap pystr Z)
    (criteria : list criterion) : gmap pystr Z :=
  fold_left (adjust_step (str_lower text)) criteria scores.

(** [extract_criteria_fallback] *)

(** [re.sub(r'\s+', ' ', s)]: every run of white space becomes one space. *)
Fixpoint collapse_ws (s : pystr) : pystr :=
  match s with
  | [] => []
  | c :: r =>
    if isspace c
    then match r with
         | c' :: _ => if isspace c' then collapse_ws r else 32%N :: collapse_ws r
         | [] => [32%N]
         end
    else c :: collapse_ws r
  end.

(** [.replace('–', '-').replace('—', '-')] *)
Definition replace_dashes (s : pystr) : pystr :=
  map (fun c => if ((c =? 8211) || (c =? 8212))%N then 45%N else c) s.

Definition normalize_text (text : pystr) : pystr :=
  replace_dashes (collapse_ws (strip text)).

Definition excluded_keywords : list pystr :=
  map u ["итого"; "максимальный"; "комментарий"]%string.

(** The test a matched name has to pass. *)
Definition keep_name (nm : pystr) : bool :=
  (5 <? length nm)%nat && negb (any_keyword excluded_keywords (str_lower nm)).

(** The criteria one pattern contributes, in the order of its matches. *)
Definition criteria_of_pattern (i : nat) (text : pystr) : list criterion :=
  omap (fun m : pystr * N =>
          let nm := strip (fst m) in
          if keep_name nm then Some {| name := nm; max_score := Z.of_N (snd m) |}
          else None)
       (re_finditer_criteria i text).

Definition default_criteria : list criterion :=
  [ {| name := u "актуальность изобретения, новизна решения"; max_score := 4 |};
    {| name := u "исследовательская составляющая работы"; max_score := 5 |};
    {| name := u "степень самостоятельности в проведении исследования"; max_score := 3 |};
    {| name := u "сложность проекта"; max_score := 7 |};
    {| name := u "практическое применение и социальная значимость"; max_score := 5 |};
    {| name := u "авторский вклад в проект"; max_score := 5 |};
    {| name := u "грамотность и качество оформления работы"; max_score := 3 |} ].

(** [sum(c["max_score"] for c in criteria)] *)
Definition sum_max_scores (criteria : list criterion) : Z :=
  fold_left (fun acc c => acc + max_score c) criteria 0.

(** What [extract_criteria_fallback] returns: [criteria] and
    [max_total_score]. *)
Record criteria_data := { criteria_list : list criterion; max_total_score : Z }.

Definition extract_criteria_fallback (text : pystr) : criteria_data :=
  let text := normalize_text text in
  let criteria := concat (map (fun i => criteria_of_pattern i text) [0; 1; 2]%nat) in
  let max_total_score := sum_max_scores criteria in
  let '(criteria, max_total_score) :=
    match criteria with
    | [] => (default_criteria, sum_max_scores default_criteria)
    | _ => (criteria, max_total_score)
    end in
  let max_total_score :=
    match re_search_total text with
    | Some parsed_total =>
      if negb (Z.of_N parsed_total =? max_total_score) then Z.of_N parsed_total
      else max_total_score
    | None => max_total_score
    end in
  {| criteria_list := criteria; max_total_score := max_total_score |}.

End Manual.

(** ** ai_data_extraction.py: the cache and the client *)

(** [cachetools.LRUCache(maxsize=1000)], every entry of size 1: the entries
    from the least to the most recently used. *)
Module LRU.

Definition maxsize : nat := 1000.

Definition t : Type := list (pystr * json).

Definition has_key (k : pystr) (kv : pystr * json) : bool := pystr_eqb k (fst kv).

(** [k in cache]: does not count as a use. *)
Definition contains (k : pystr) (c : t) : bool := existsb (has_key k) c.

Definition remove (k : pystr) (c : t) : t := List.filter (fun kv => negb (has_key k kv)) c.

(** [cache[k]]: the value, and [k] becomes the most recently used. *)
Definition getitem (k : pystr) (c : t) : option (json * t) :=
  match assoc k c with
  | Some v => Some (v, remove k c ++ [(k, v)])
  | None => None
  end.

(** [cache[k] = v]: a new key first evicts the least recently used entries
    until there is room for one more. *)
Definition setitem (k : pystr) (v : json) (c : t) : t :=
  if contains k c then remove k c ++ [(k, v)]
  else drop (length c + 1 - maxsize) c ++ [(k, v)].

End LRU.

(** The mutable fields of a [ChatGPTClient]. *)
Record ChatGPTClient := {
  cache : LRU.t;
  current_cache_size_bytes : N
}.

Definition max_cache_size_bytes : N := 10 * 1024 * 1024.

(** What a call does besides returning: cache traffic, waits, warnings. *)
Inductive event :=
| EvCacheHit (key : pystr)
| EvInsert (key : pystr) (size : N)
| EvSaveCache
| EvNotStored (size : N)
| EvLoadStopped (key : pystr)
| EvNoCacheFile
| EvLoadError (e : exn)
| EvRateLimited (attempt : nat)
| EvAttemptFailed (attempt : nat) (e : exn)
| EvGaveUp
| EvSleep (seconds : Z).

Section Client.

Context {rt : Runtime}.

(** [len(json.dumps(s))] for a string, with the default [ensure_ascii]. *)
Definition escaped_len (c : N) : N :=
  if ((c =? 34) || (c =? 92) || (c =? 8) || (c =? 9) || (c =? 10) || (c =? 12)
      || (c =? 13))%N then 2%N
  else if ((32 <=? c) && (c <=? 126))%N then 1%N
  else if (c <? 65536)%N then 6%N
  else 12%N.

Definition str_dumps_len (s : pystr) : N :=
  (2 + fold_right (fun c acc => escaped_len c + acc) 0 s)%N.

Definition int_repr_len (z : Z) : N :=
  ((if (z <? 0)%Z then 1 else 0) + N.of_nat (Decimal.nb_digits (N.to_uint (Z.abs_N z))))%N.

(** [len(json.dumps(value).encode('utf-8'))]: the output is ASCII, one byte
    per character; items are separated by [", "], key and value by [": "]. *)
Fixpoint json_dumps_len (v : json) : N :=
  match v with
  | JNull => 4
  | JBool true => 4
  | JBool false => 5
  | JInt z => int_repr_len z
  | JFloat f => float_repr_len f
  | JStr s => str_dumps_len s
  | JArr l =>
    2 + (fix items (l : list json) : N :=
           match l with
           | [] => 0
           | [x] => json_dumps_len x
           | x :: r => json_dumps_len x + 2 + items r
           end) l
  | JObj l =>
    2 + (fix fields (l : list (pystr * json)) : N :=
           match l with
           | [] => 0
           | [(k, x)] => str_dumps_len k + 2 + json_dumps_len x
           | (k, x) :: r => str_dumps_len k + 2 + json_dumps_len x + 2 + fields r
           end) l
  end%N.

(** The store step shared by [load_cache] and [query]: the value goes in only
    if the counter plus its size stays within the bound. *)
Definition fits (self : ChatGPTClient) (size : N) : bool :=
  (current_cache_size_bytes self + size <=? max_cache_size_bytes)%N.

Definition insert_entry (self : ChatGPTClient) (key : pystr) (value : json)
    (size : N) : ChatGPTClient :=
  {| cache := LRU.setitem key value (cache self);
     current_cache_size_bytes := (current_cache_size_bytes self + size)%N |}.

(** The loop of [load_cache] over [data.items()]; the first entry that does
    not fit ends it. *)
Fixpoint load_items (items : list (pystr * json)) (self : ChatGPTClient)
    : ChatGPTClient * list event :=
  match items with
  | [] => (self, [])
  | (key, value) :: rest =>
    let value_size := json_dumps_len value in
    if fits self value_size then
      let '(self', evs) := load_items rest (insert_entry self key value value_size) in
      (self', EvInsert key value_size :: evs)
    else (self, [EvLoadStopped key])
  end.

(** [load_cache]: [file] is what opening and parsing [cache.json] gives. *)
Definition load_cache (self : ChatGPTClient) (file : res json)
    : ChatGPTClient * list event :=
  match file with
  | Ok (JObj items) => load_items items self
  | Ok _ => (self, [EvLoadError AttributeError])
  | Raise FileNotFoundError => (self, [EvNoCacheFile])
  | Raise e => (self, [EvLoadError e])
  end.

(** [ChatGPTClient.__init__] *)
Definition init (file : res json) : ChatGPTClient * list event :=
  load_cache {| cache := []; current_cache_size_bytes := 0 |} file.

(** The success branch of an attempt: lines 90-100. *)
Definition store_response (self : ChatGPTClient) (cache_key : pystr)
    (response_json : json) : ChatGPTClient * list event :=
  let response_size := json_dumps_len response_json in
  if fits self response_size
  then (insert_entry self cache_key response_json response_size,
        [EvInsert cache_key response_size; EvSaveCache])
  else (self, [EvNotStored response_size]).

(** The [except] clauses of an attempt: [aiohttp.ClientResponseError] with
    its test [e.status == 429], then [(aiohttp.ClientError,
    asyncio.TimeoutError)]; the two bodies that are not for 429 are the
    same. *)
Definition is_rate_limited (e : exn) : bool :=
  match e with
  | ClientResponseError status => status =? 429
  | _ => false
  end.

Definition is_client_error (e : exn) : bool :=
  match e with
  | ClientResponseError _ | ClientError | TimeoutError => true
  | _ => false
  end.

(** The retry loop.  [post attempt] is the outcome of the request of that
    attempt: the parsed body, or the exception [session.post],
    [raise_for_status] or [response.json] raised.  [fuel] is the number of
    attempts left. *)
Fixpoint attempts (fuel attempt : nat) (retries : Z) (self : ChatGPTClient)
    (cache_key : pystr) (post : nat -> res json)
    : res (ChatGPTClient * json * list event) :=
  match fuel with
  | O => Ok (self, JNull, [])
  | S fuel' =>
    match post attempt with
    | Ok response_json =>
      let '(self', evs) := store_response self cache_key response_json in
      Ok (self', response_json, evs ++ [EvSleep 1])
    | Raise e =>
      if is_rate_limited e then
        bind (attempts fuel' (S attempt) retries self cache_key post)
          (fun '(self', r, evs) =>
             Ok (self', r,
                 EvRateLimited attempt :: EvSleep (2 ^ Z.of_nat attempt * 10) :: evs))
      else if is_client_error e then
        if Z.of_nat attempt =? retries - 1
        then Ok (self, JNull, [EvAttemptFailed attempt e; EvGaveUp])
        else
          bind (attempts fuel' (S attempt) retries self cache_key post)
            (fun '(self', r, evs) =>
               Ok (self', r,
                   EvAttemptFailed attempt e :: EvSleep (2 ^ Z.of_nat attempt) :: evs))
      else Raise e
    end
  end.

(** [ChatGPTClient.query].  The prompt and [max_tokens] only go into the
    request, whose outcome is [post]; the cache key is made of the text
    alone.  [None] is [JNull]. *)
Definition cache_key_of (text : pystr) : pystr := sha256_hexdigest (prefix 2000 text).

Definition query (self : ChatGPTClient) (text : pystr) (retries : Z)
    (post : nat -> res json) : res (ChatGPTClient * json * list event) :=
  let cache_key := cache_key_of text in
  match LRU.getitem cache_key (cache self) with
  | Some (v, cache') =>
    Ok ({| cache := cache';
           current_cache_size_bytes := current_cache_size_bytes self |},
        v, [EvCacheHit cache_key])
  | None => attempts (Z.to_nat retries) 0 retries self cache_key post
  end.

(** [cache_key in self.cache] followed by [self.cache[cache_key]]: what a
    lookup of the cache returns. *)
Definition cache_get (self : ChatGPTClient) (key : pystr) : option json :=
  assoc key (cache self).

(** The bytes of the values now in the cache. *)
Definition resident_bytes (self : ChatGPTClient) : N :=
  fold_right (fun kv acc => json_dumps_len (snd kv) + acc)%N 0%N (cache self).


End Client.

(** ** ai_data_extraction.py: the extractors *)

(** What [extract_metadata_and_scores] returns. *)
Record ExtractionResult := {
  metadata : json;
  scores : gmap pystr json;
  recommendations : list json
}.

(** The calls to the logger, with the values they format. *)
Inductive log_record :=
| LogInvalidScore (crit_name : pystr) (score : json) (max : Z)
| LogScore (crit_name : pystr) (stored : json) (reason : json)
| LogCriterionMissing (crit_name : pystr)
| LogRecommendationsRejected (total_words : nat)
| LogRecommendationsMalformed
| LogExtractionError (e : exn)
| LogNoResponse
| LogUnscored (missing_criteria : nat)
| LogScored (scored total : nat).

(** The body of the [try]: it updates [result] in place and logs, so the
    state it has reached survives an exception the [except] clause catches. *)
Definition body (A : Type) : Type :=
  ExtractionResult * list log_record -> (ExtractionResult * list log_record) * res A.

Definition ret {A} (a : A) : body A := fun st => (st, Ok a).

Definition lift {A} (r : res A) : body A := fun st => (st, r).

Definition and_then {A B} (m : body A) (f : A -> body B) : body B :=
  fun st =>
    match m st with
    | (st', Ok a) => f a st'
    | (st', Raise e) => (st', Raise e)
    end.

Notation "x <~ m ;; k" := (and_then m (fun x => k))
  (at level 100, m at next level, right associativity).

Definition logger (r : log_record) : body unit :=
  fun st => ((fst st, snd st ++ [r]), Ok tt).

Definition set_metadata (m : json) : body unit :=
  fun st => (({| metadata := m; scores := scores (fst st);
                 recommendations := recommendations (fst st) |}, snd st), Ok tt).

Definition set_score (k : pystr) (v : json) : body unit :=
  fun st => (({| metadata := metadata (fst st); scores := <[k := v]> (scores (fst st));
                 recommendations := recommendations (fst st) |}, snd st), Ok tt).

Definition set_recommendations (l : list json) : body unit :=
  fun st => (({| metadata := metadata (fst st); scores := scores (fst st);
                 recommendations := l |}, snd st), Ok tt).

(** [result["scores"][k]] *)
Definition get_score (k : pystr) : body json :=
  fun st => (st, match scores (fst st) !! k with
                 | Some v => Ok v
                 | None => Raise KeyError
                 end).

Fixpoint for_each {A} (f : A -> body unit) (l : list A) : body unit :=
  match l with
  | [] => ret tt
  | a :: r => _ <~ f a ;; for_each f r
  end.

Section Extractors.

Context {rt : Runtime}.

Definition unknown_metadata : json :=
  JObj [ (u "author", JStr (u "Unknown")); (u "grade", JStr (u "Unknown"));
         (u "school", JStr (u "Unknown")); (u "title", JStr (u "Unknown")) ].

(** The fallback result of lines 176-180. *)
Definition fallback_result (filename : pystr) (criteria : list criterion)
    : ExtractionResult :=
  {| metadata := unknown_metadata;
     scores := evaluate_work_fallback criteria;
     recommendations := generate_recommendations_fallback filename |}.

(** [response and 'choices' in response and response['choices']] *)
Definition has_choices (response : json) : res bool :=
  if truthy response then
    b <- py_in (u "choices") response ;;
    if b then c <- getitem_str response (u "choices") ;; Ok (truthy c)
    else Ok false
  else Ok false.

(** [response['choices'][0]['message']['content']] *)
Definition response_content (response : json) : res json :=
  c <- getitem_str response (u "choices") ;;
  e <- getitem_0 c ;;
  m <- getitem_str e (u "message") ;;
  getitem_str m (u "content").

(** [json.loads(re.sub(..., content).strip())] *)
Definition parse_content (content : json) : res json :=
  match content with
  | JStr s =>
    match json_loads (strip (re_sub_code_fence s)) with
    | Some parsed => Ok parsed
    | None => Raise JSONDecodeError
    end
  | _ => Raise TypeError
  end.

Definition correction_note : pystr := u "Исправлено из-за недопустимого значения. ".
Definition default_reason : pystr := u "Причина не указана".

(** [not isinstance(score, int) or score < 0 or score > max_score] *)
Definition score_invalid (score : json) (max : Z) : res bool :=
  if negb (is_int score) then Ok true
  else
    lt <- py_lt score 0 ;;
    if (lt : bool) then Ok true else py_gt score max.

(** [min(max(0, score), max_score)] *)
Definition clamp (score : json) (max : Z) : res json :=
  m <- py_max0 score ;; py_min m max.

(** Lines 196-209: one criterion of the loop over the criteria. *)
Definition overlay_score (ai_scores : json) (crit : criterion) : body unit :=
  let crit_name := name crit in
  let max := max_score crit in
  present <~ lift (py_in crit_name ai_scores) ;;
  entry_is_dict <~
    (if (present : bool)
     then e <~ lift (getitem_str ai_scores crit_name) ;; ret (is_dict e)
     else ret false) ;;
  if (entry_is_dict : bool) then
    score_entry <~ lift (getitem_str ai_scores crit_name) ;;
    score <~ lift (dict_get score_entry (u "score") (JInt 0)) ;;
    reason <~ lift (dict_get score_entry (u "reason") (JStr default_reason)) ;;
    invalid <~ lift (score_invalid score max) ;;
    corrected <~
      (if (invalid : bool) then
         _ <~ logger (LogInvalidScore crit_name score max) ;;
         score' <~ lift (clamp score max) ;;
         ret (score', JStr (correction_note ++ format_value reason))
       else ret (score, reason)) ;;
    positive <~ lift (py_gt (fst corrected) 0) ;;
    stored <~ (if (positive : bool) then ret (fst corrected) else get_score crit_name) ;;
    _ <~ set_score crit_name stored ;;
    now <~ get_score crit_name ;;
    logger (LogScore crit_name now (snd corrected))
  else logger (LogCriterionMissing crit_name).

(** Lines 189-190 *)
Definition overlay_metadata (parsed_result : json) : body unit :=
  present <~ lift (py_in (u "metadata") parsed_result) ;;
  if (present : bool) then
    m <~ lift (getitem_str parsed_result (u "metadata")) ;;
    if is_dict m then set_metadata m else ret tt
  else ret tt.

(** Lines 193-209 *)
Definition overlay_scores (criteria : list criterion) (parsed_result : json) : body unit :=
  present <~ lift (py_in (u "scores") parsed_result) ;;
  if (present : bool) then
    ai_scores <~ lift (getitem_str parsed_result (u "scores")) ;;
    if is_dict ai_scores then for_each (overlay_score ai_scores) criteria else ret tt
  else ret tt.

(** [isinstance(rec, str) and rec.strip()] *)
Definition is_nonblank_str (rec : json) : bool :=
  match rec with
  | JStr s => match strip s with [] => false | _ => true end
  | _ => false
  end.

(** [len(rec.split())] *)
Definition word_count (rec : json) : nat :=
  match rec with JStr s => length (split s) | _ => O end.

(** [len(re.split(r'[.!?]', rec)) >= 2] *)
Definition has_sentences (rec : json) : bool :=
  match rec with
  | JStr s => (2 <=? length (re_split_terminators s))%nat
  | _ => false
  end.

Definition total_words (recommendations : list json) : nat :=
  fold_right (fun rec acc => word_count rec + acc)%nat O recommendations.

(** Lines 212-223 *)
Definition overlay_recommendations (parsed_result : json) : body unit :=
  present <~ lift (py_in (u "recommendations") parsed_result) ;;
  if (present : bool) then
    r <~ lift (getitem_str parsed_result (u "recommendations")) ;;
    match r with
    | JArr recommendations =>
      if (length recommendations =? 2)%nat && forallb is_nonblank_str recommendations
      then
        if (total_words recommendations <=? 60)%nat
           && forallb has_sentences recommendations
        then set_recommendations recommendations
        else logger (LogRecommendationsRejected (total_words recommendations))
      else logger LogRecommendationsMalformed
    | _ => ret tt
    end
  else ret tt.

(** The body of the [try] of lines 183-223. *)
Definition overlay (criteria : list criterion) (response : json) : body unit :=
  content <~ lift (response_content response) ;;
  parsed_result <~ lift (parse_content content) ;;
  _ <~ overlay_metadata parsed_result ;;
  _ <~ overlay_scores criteria parsed_result ;;
  overlay_recommendations parsed_result.

(** [except (json.JSONDecodeError, KeyError)] *)
Definition is_caught (e : exn) : bool :=
  match e with JSONDecodeError | KeyError => true | _ => false end.

(** Lines 231-235 *)
Definition account (criteria : list criterion) (st : ExtractionResult * list log_record)
    : ExtractionResult * list log_record :=
  let missing_criteria :=
    length (List.filter (fun crit => bool_decide (scores (fst st) !! name crit = None)) criteria) in
  (fst st,
   snd st ++ (if (0 <? missing_criteria)%nat then [LogUnscored missing_criteria] else [])
          ++ [LogScored (size (scores (fst st))) (length criteria)]).

(** Lines 176-236: everything after the [await] of the query. *)
Definition merge_response (filename : pystr) (criteria : list criterion)
    (response : json) : res (ExtractionResult * list log_record) :=
  let st0 := (fallback_result filename criteria, []) in
  ok <- has_choices response ;;
  st <- (if (ok : bool) then
           match overlay criteria response st0 with
           | (st, Ok _) => Ok st
           | (st, Raise e) =>
             if is_caught e then Ok (fst st, snd st ++ [LogExtractionError e])
             else Raise e
           end
         else Ok (fst st0, snd st0 ++ [LogNoResponse])) ;;
  Ok (account criteria st).

(** [extract_metadata_and_scores]: the query with its default of 3 attempts,
    then the merge. *)
Definition extract_metadata_and_scores (text filename : pystr)
    (criteria : list criterion) (chatgpt_client : ChatGPTClient)
    (post : nat -> res json)
    : res (ChatGPTClient * ExtractionResult * list log_record) :=
  bind (query chatgpt_client text 3 post)
    (fun '(client', response, _) =>
       bind (merge_response filename criteria response)
         (fun '(result, log) => Ok (client', result, log))).

(** [extract_criteria] *)

Definition as_int (v : json) : option Z :=
  match v with
  | JInt z => Some z
  | JBool b => Some (Z_of_bool b)
  | _ => None
  end.

(** [a + b] *)
Definition py_add (a b : json) : res json :=
  match a, b with
  | JFloat f, JFloat g => Ok (JFloat (float_add f g))
  | JFloat f, _ =>
    match as_int b with
    | Some y => Ok (JFloat (float_add f (float_of_int y)))
    | None => Raise TypeError
    end
  | _, JFloat g =>
    match as_int a with
    | Some x => Ok (JFloat (float_add (float_of_int x) g))
    | None => Raise TypeError
    end
  | _, _ =>
    match as_int a, as_int b with
    | Some x, Some y => Ok (JInt (x + y))
    | _, _ => Raise TypeError
    end
  end.

Definition float_eqb (f g : pyfloat) : bool :=
  match f, g with
  | FFin p, FFin q => Qeq_bool p q
  | FInf a, FInf b => eqb a b
  | _, _ => false
  end.

(** [a == b] where [b] is a number: a value that is not a number differs. *)
Definition py_eq_num (a b : json) : bool :=
  match a, b with
  | JFloat f, JFloat g => float_eqb f g
  | JFloat (FFin q), _ =>
    match as_int b with Some y => Qeqb_Z q y | None => false end
  | _, JFloat (FFin q) =>
    match as_int a with Some x => Qeqb_Z q x | None => false end
  | _, _ =>
    match as_int a, as_int b with
    | Some x, Some y => x =? y
    | _, _ => false
    end
  end.

(** The elements a [for] loop over the value sees. *)
Definition py_iter (v : json) : res (list json) :=
  match v with
  | JArr l => Ok l
  | JObj l => Ok (map (fun kv => JStr (fst kv)) l)
  | JStr s => Ok (map (fun c => JStr [c]) s)
  | _ => Raise TypeError
  end.

(** [sum(c['max_score'] for c in l)], from the running total [acc]. *)
Fixpoint sum_max_score (acc : json) (l : list json) : res json :=
  match l with
  | [] => Ok acc
  | c :: r =>
    v <- getitem_str c (u "max_score") ;;
    acc' <- py_add acc v ;;
    sum_max_score acc' r
  end.

(** [d[k] = v] on the items of a dict. *)
Fixpoint dict_set (l : list (pystr * json)) (k : pystr) (v : json) : list (pystr * json) :=
  match l with
  | [] => [(k, v)]
  | (k', x) :: r => if pystr_eqb k k' then (k', v) :: r else (k', x) :: dict_set r k v
  end.

Definition setitem_str (d : json) (k : pystr) (v : json) : res json :=
  match d with
  | JObj l => Ok (JObj (dict_set l k v))
  | JArr _ | JStr _ => Raise TypeError
  | _ => Raise TypeError
  end.

(** The [try] of lines 262-272: the dict the AI path returns. *)
Definition reconcile (response : json) : res json :=
  content <- response_content response ;;
  criteria_data <- parse_content content ;;
  crits <- dict_get criteria_data (u "criteria") (JArr []) ;;
  items <- py_iter crits ;;
  total_score <- sum_max_score (JInt 0) items ;;
  declared <- dict_get criteria_data (u "max_total_score") (JInt 0) ;;
  if negb (py_eq_num declared total_score)
  then setitem_str criteria_data (u "max_total_score") total_score
  else Ok criteria_data.

Definition criterion_json (c : criterion) : json :=
  JObj [(u "name", JStr (name c)); (u "max_score", JInt (max_score c))].

(** The dict [extract_criteria_fallback] returns. *)
Definition criteria_data_json (d : criteria_data) : json :=
  JObj [ (u "criteria", JArr (map criterion_json (criteria_list d)));
         (u "max_total_score", JInt (max_total_score d)) ].

(** [extract_criteria], from the text of the rubric file on. *)
Definition extract_criteria (text : pystr) (chatgpt_client : ChatGPTClient)
    (post : nat -> res json) : res (ChatGPTClient * json) :=
  match strip text with
  | [] => Raise (HTTPException 400)
  | _ =>
    bind (query chatgpt_client text 3 post)
      (fun '(client', response, _) =>
         ok <- has_choices response ;;
         if (ok : bool) then
           match reconcile response with
           | Ok criteria_data => Ok (client', criteria_data)
           | Raise e =>
             if is_caught e
             then Ok (client', criteria_data_json (extract_criteria_fallback text))
             else Raise e
           end
         else Ok (client', criteria_data_json (extract_criteria_fallback text)))
  end.

End Extractors.


(** ** main.py *)

(** [sum(scores.get(c['name'], 0) for c in criteria)]: the total of a work,
    as [log_evaluations], [create_excel_file] and [process_files] compute
    it, for integer scores. *)
Definition total_score (scores : gmap pystr Z) (criteria : list criterion) : Z :=
  fold_left (fun acc c => acc + default 0 (scores !! name c)) criteria 0.

(** The loop of [process_files] that counts, for each total, the works that
    reached it. *)
Definition score_distribution (totals : list Z) : gmap Z nat :=
  fold_left (fun d total => <[total := (default 0 (d !! total) + 1)%nat]> d)
            totals ∅.
(** * The vocabulary of the properties *)

Section Vocabulary.

Context {rt : Runtime}.

(** ** The rule-based adjuster *)

Definition targeted (k : pystr) : Prop := k = novelty_name \/ k = formatting_name.




(** ** The client *)

(** One call of [query]: its text, its number of attempts and the outcomes
    of its requests. *)
Record call := { call_text : pystr; call_retries : Z; call_post : nat -> res json }.

(** The calls of a process on its one client, one after the other.  A call
    that raises does so before it stores anything. *)
Fixpoint run (self : ChatGPTClient) (calls : list call) : ChatGPTClient * list event :=
  match calls with
  | [] => (self, [])
  | c :: rest =>
    match query self (call_text c) (call_retries c) (call_post c) with
    | Ok (self', _, evs) =>
      let '(self'', evs') := run self' rest in (self'', evs ++ evs')
    | Raise _ => run self rest
    end
  end.






(** ** The metadata and score extractor *)

(** What the AI answered: the parsed content of the response, when the
    response has the shape the code reads and its content parses. *)
Definition ai_parsed (response : json) : option json :=
  match response_content response with
  | Ok content =>
    match parse_content content with
    | Ok parsed => Some parsed
    | Raise _ => None
    end
  | Raise _ => None
  end.

(** A field of the answer, when the answer is a JSON object. *)
Definition ai_field (response : json) (k : pystr) : option json :=
  match ai_parsed response with
  | Some (JObj fields) => assoc k fields
  | _ => None
  end.

(** The score and the reason the AI proposed for a criterion: the score
    object under its name, read with the defaults of the code. *)
Definition ai_score (response : json) (crit_name : pystr) : option (json * json) :=
  match ai_field response (u "scores") with
  | Some (JObj ai_scores) =>
    match assoc crit_name ai_scores with
    | Some (JObj entry) =>
      Some (get_or entry (u "score") (JInt 0),
            get_or entry (u "reason") (JStr default_reason))
    | _ => None
    end
  | _ => None
  end.

Definition is_number (v : json) : bool :=
  match v with
  | JInt _ | JBool _ | JFloat _ => true
  | _ => false
  end.

(** The proposed score once corrected: clamped if it is not an integer of
    the range. *)
Definition effective_score (score : json) (max : Z) : res json :=
  invalid <- score_invalid score max ;;
  if (invalid : bool) then clamp score max else Ok score.

(** What ends up in the score mapping where the fallback put [old]. *)
Definition stored_score (score : json) (max : Z) (old : json) : res json :=
  e <- effective_score score max ;;
  positive <- py_gt e 0 ;;
  Ok (if (positive : bool) then e else old).

(** The reason as it is logged with the score. *)
Definition logged_reason (score reason : json) (max : Z) : json :=
  match score_invalid score max with
  | Ok true => JStr (correction_note ++ format_value reason)
  | _ => reason
  end.



(** The recommendation pair of the specification: exactly two non-empty
    strings, at most 60 words together, each with a sentence terminator. *)
Definition contains_terminator (s : pystr) : bool := existsb is_terminator s.

Definition valid_pair (candidate : json) : bool :=
  match candidate with
  | JArr [JStr a; JStr b] =>
    negb (bool_decide (a = [])) && negb (bool_decide (b = []))
    && (length (split a) + length (split b) <=? 60)%nat
    && contains_terminator a && contains_terminator b
  | _ => false
  end.

Definition pair_items (candidate : json) : list json :=
  match candidate with JArr l => l | _ => [] end.

(** The recommendations the merge has to return for a response. *)
Definition expected_recommendations (filename : pystr) (response : json) : list json :=
  match ai_field response (u "recommendations") with
  | Some candidate =>
    if valid_pair candidate then pair_items candidate
    else generate_recommendations_fallback filename
  | None => generate_recommendations_fallback filename
  end.

(** The metadata the merge returns: the object of the AI as it is, or the
    default. *)
Definition expected_metadata (response : json) : json :=
  match ai_field response (u "metadata") with
  | Some (JObj m) => JObj m
  | _ => unknown_metadata
  end.

(** The result with one field replaced. *)
Definition with_metadata (r : ExtractionResult) (m : json) : ExtractionResult :=
  {| metadata := m; scores := scores r; recommendations := recommendations r |}.

Definition with_score (r : ExtractionResult) (k : pystr) (v : json) : ExtractionResult :=
  {| metadata := metadata r; scores := <[k := v]> (scores r);
     recommendations := recommendations r |}.

Definition with_recommendations (r : ExtractionResult) (l : list json) : ExtractionResult :=
  {| metadata := metadata r; scores := scores r; recommendations := l |}.

(** The warning of line 203, when the score is not an integer of the range. *)
Definition invalid_log (c : criterion) (score : json) : list log_record :=
  match score_invalid score (max_score c) with
  | Ok true => [LogInvalidScore (name c) score (max_score c)]
  | _ => []
  end.

(** The two tests of lines 214-218 together. *)
Definition accepts (l : list json) : bool :=
  (length l =? 2)%nat && forallb is_nonblank_str l
  && (total_words l <=? 60)%nat && forallb has_sentences l.

(** ** The criteria extractor *)




(** ** The state of the cache *)

(** The bytes of the values of a list of entries. *)
Definition bytes_of (c : LRU.t) : N :=
  fold_right (fun kv acc => json_dumps_len (snd kv) + acc)%N 0%N c.

(** What holds of a client between two calls: its keys are distinct, it has
    at most 1000 entries, and the bytes of its entries are at most the
    counter, itself at most 10 MB. *)
Definition cache_ok (self : ChatGPTClient) : Prop :=
  NoDup (map fst (cache self))
  /\ (length (cache self) <= LRU.maxsize)%nat
  /\ (resident_bytes self <= current_cache_size_bytes self)%N
  /\ (current_cache_size_bytes self <= max_cache_size_bytes)%N.

(** The seconds a call spent waiting. *)
Definition slept (evs : list event) : Z :=
  fold_right (fun ev acc => match ev with EvSleep s => s + acc | _ => acc end) 0 evs.

(** The insertions of a list of entries, one after the other. *)
Definition insert_all (items : list (pystr * json)) (c : LRU.t) : LRU.t :=
  fold_left (fun c kv => LRU.setitem (fst kv) (snd kv) c) items c.

(** What a rate-limited attempt and a failed attempt that is not the last
    leave in the trace. *)
Definition rate_limited_step (a : nat) : list event :=
  [EvRateLimited a; EvSleep (2 ^ Z.of_nat a * 10)].

Definition failed_step (err : nat -> exn) (a : nat) : list event :=
  [EvAttemptFailed a (err a); EvSleep (2 ^ Z.of_nat a)].

(** ** The adjuster on any text *)

(** The rule of a targeted criterion fires: the lower-cased text has one of
    its keywords. *)
Definition has_signal (text : pystr) (k : pystr) : bool :=
  if pystr_eqb k novelty_name then any_keyword keywords (str_lower text)
  else any_keyword structure_keywords (str_lower text).

(** The score mapping of a result, where every score is an integer. *)
Definition int_scores (m : gmap pystr json) : gmap pystr Z := omap as_int m.

(** ** The works of a request *)

(** The number of works whose total is [t]. *)
Definition works_with_total (t : Z) (totals : list Z) : nat :=
  length (List.filter (Z.eqb t) totals).
End Vocabulary.

(** * The inputs of the examples *)

(** [str.lower] on the Latin and the Russian capital letters. *)
Definition lower_basic (s : pystr) : pystr :=
  map (fun c =>
         if ((65 <=? c) && (c <=? 90) || (1040 <=? c) && (c <=? 1071))%N
         then (c + 32)%N
         else if (c =? 1025)%N then 1105%N else c) s.

Definition digit_char (d : nat) : N := (48 + N.of_nat d)%N.

Fixpoint uint_chars (d : Decimal.uint) : pystr :=
  match d with
  | Decimal.Nil => []
  | Decimal.D0 r => digit_char 0 :: uint_chars r
  | Decimal.D1 r => digit_char 1 :: uint_chars r
  | Decimal.D2 r => digit_char 2 :: uint_chars r
  | Decimal.D3 r => digit_char 3 :: uint_chars r
  | Decimal.D4 r => digit_char 4 :: uint_chars r
  | Decimal.D5 r => digit_char 5 :: uint_chars r
  | Decimal.D6 r => digit_char 6 :: uint_chars r
  | Decimal.D7 r => digit_char 7 :: uint_chars r
  | Decimal.D8 r => digit_char 8 :: uint_chars r
  | Decimal.D9 r => digit_char 9 :: uint_chars r
  end.

Definition int_chars (z : Z) : pystr :=
  (if z <? 0 then [45%N] else []) ++ uint_chars (N.to_uint (Z.abs_N z)).

Definition quoted (s : pystr) : pystr := [34%N] ++ s ++ [34%N].

(** The JSON text of an answer made of objects, arrays, integers and strings
    that need no escape: what the AI sends as [content]. *)
Fixpoint render (v : json) : pystr :=
  match v with
  | JNull => u "null"
  | JBool true => u "true"
  | JBool false => u "false"
  | JInt z => int_chars z
  | JFloat _ => []
  | JStr s => quoted s
  | JArr l =>
    u "[" ++ (fix items (l : list json) : pystr :=
                match l with
                | [] => []
                | [x] => render x
                | x :: r => render x ++ u ", " ++ items r
                end) l ++ u "]"
  | JObj l =>
    u "{" ++ (fix fields (l : list (pystr * json)) : pystr :=
                match l with
                | [] => []
                | [(k, x)] => quoted k ++ u ": " ++ render x
                | (k, x) :: r => quoted k ++ u ": " ++ render x ++ u ", " ++ fields r
                end) l ++ u "}"
  end.

(** The body of a chat completion whose message has the given content. *)
Definition completion (content : pystr) : json :=
  JObj [(u "choices",
         JArr [JObj [(u "message", JObj [(u "content", JStr content)])]])].

(** The runtime of the examples.  [json.loads] reads back the listed answers
    from their text and rejects every other text; the declared-total pattern
    finds the listed totals.  The texts of the examples have no code fence
    and nothing the three criteria patterns match, and only Latin or Russian
    letters; floats do not occur. *)
Definition example_runtime (answers : list json) (totals : list (pystr * N))
    : Runtime :=
  {| json_loads := fun s => find (fun v => pystr_eqb (render v) s) answers;
     re_sub_code_fence := fun s => s;
     str_lower := lower_basic;
     sha256_hexdigest := fun s => s;
     format_value := fun v => match v with JStr s => s | _ => render v end;
     float_repr_len := fun _ => 3%N;
     float_add := fun f _ => f;
     float_of_int := fun z => FFin (inject_Z z);
     re_finditer_criteria := fun _ _ => [];
     re_search_total := fun s => snd <$> find (fun kv => pystr_eqb (fst kv) s) totals |}.

Definition fresh_client : ChatGPTClient :=
  {| cache := []; current_cache_size_bytes := 0 |}.

(** The endpoint times out at every attempt. *)
Definition unavailable : nat -> res json := fun _ => Raise TimeoutError.

(** The endpoint answers with the given JSON document at the first attempt. *)
Definition answering (answer : json) : nat -> res json :=
  fun _ => Ok (completion (render answer)).

Definition criterion_a : criterion := {| name := u "Критерий А"; max_score := 4 |}.
Definition criterion_b : criterion := {| name := u "Критерий Б"; max_score := 2 |}.

Definition work_text : pystr := u "Отчёт о школьном проекте".
Definition work_name : pystr := u "work.txt".

(** Answers of the AI. *)
Definition score_entry (score : json) (reason : string) : json :=
  JObj [(u "score", score); (u "reason", JStr (u reason))].

Definition answer_below_zero : json :=
  JObj [(u "scores", JObj [(u "Критерий А", score_entry (JInt (-1)) "слабо")])].

Definition answer_above_max : json :=
  JObj [(u "scores", JObj [(u "Критерий А", score_entry (JInt 10) "отлично")])].

Definition answer_zero : json :=
  JObj [(u "scores", JObj [(u "Критерий А", score_entry (JInt 0) "нет данных")])].

Definition answer_text_score : json :=
  JObj [(u "scores",
         JObj [(u "Критерий А", score_entry (JStr (u "высокий")) "хорошо")])].


Definition answer_recommendations : json :=
  JObj [(u "recommendations",
         JArr [JStr (u "Добавьте датчик для автоматизации модели.");
               JStr (u "Проведите опрос в другой школе.")])].

Definition answer_one_recommendation : json :=
  JObj [(u "recommendations",
         JArr [JStr (u "Добавьте датчик для автоматизации модели.");
               JStr (u "Проведите опрос")])].

Definition answer_criteria : json :=
  JObj [(u "criteria",
         JArr [criterion_json criterion_a; criterion_json criterion_b]);
        (u "max_total_score", JInt 10)].

(** A rubric that names no criterion and declares a total. *)
Definition rubric_text : pystr := u "Максимальный балл - 10".



(** The parts of what a call returned; a call that raised has none. *)
Definition client_of {A B : Type} (run : res (ChatGPTClient * A * B)) : ChatGPTClient :=
  match run with Ok (c, _, _) => c | Raise _ => fresh_client end.

Definition result_of (run : res (ChatGPTClient * ExtractionResult * list log_record))
    : ExtractionResult :=
  match run with
  | Ok (_, r, _) => r
  | Raise _ => {| metadata := JNull; scores := ∅; recommendations := [] |}
  end.

Definition log_of (run : res (ChatGPTClient * ExtractionResult * list log_record))
    : list log_record :=
  match run with Ok (_, _, lg) => lg | Raise _ => [] end.

Definition response_of (run : res (ChatGPTClient * json * list event)) : json :=
  match run with Ok (_, v, _) => v | Raise _ => JNull end.

Definition events_of (run : res (ChatGPTClient * json * list event)) : list event :=
  match run with Ok (_, _, evs) => evs | Raise _ => [] end.

(** One submission evaluated against the two criteria on a fresh client
    whose endpoint answers with [answer]. *)
Definition criteria_ab : list criterion := [criterion_a; criterion_b].

Definition evaluate (answer : json)
    : res (ChatGPTClient * ExtractionResult * list log_record) :=
  extract_metadata_and_scores (rt := example_runtime [answer] [])
    work_text work_name criteria_ab fresh_client (answering answer).

Definition ask (answer : json) : res (ChatGPTClient * json * list event) :=
  query (rt := example_runtime [answer] []) fresh_client work_text 3 (answering answer).



Definition criteria_runtime : Runtime := example_runtime [answer_criteria] [].

Definition plain_runtime : Runtime := example_runtime [] [].

(** * Properties *)

Section Properties.

Context {rt : Runtime}.

(** ** The rule-based adjuster *)

Lemma pystr_eqb_true (a b : pystr) : pystr_eqb a b = true <-> a = b.
Proof.
  revert b. induction a as [| x a IH]; intros [| y b]; simpl; try done.
  rewrite andb_true_iff, N.eqb_eq, IH. split.
  - by intros [-> ->].
  - intros H. by inversion H.
Qed.

Lemma pystr_eqb_false (a b : pystr) : pystr_eqb a b = false <-> a <> b.
Proof.
  rewrite <- pystr_eqb_true. by destruct (pystr_eqb a b).
Qed.

Lemma pystr_eqb_refl (a : pystr) : pystr_eqb a a = true.
Proof. by apply pystr_eqb_true. Qed.

Lemma adjust_step_other (tl : pystr) (m : gmap pystr Z) (crit : criterion) (k : pystr) :
  name crit <> k \/ ~ targeted k ->
  adjust_step tl m crit !! k = m !! k.
Proof.
  intros H. unfold adjust_step.
  destruct (pystr_eqb (name crit) novelty_name) eqn:E1.
  - apply pystr_eqb_true in E1.
    assert (name crit <> k) as Hne.
    { destruct H as [H | H]; [done |]. intros <-. apply H. by left. }
    destruct (any_keyword keywords tl); by rewrite lookup_insert_ne.
  - destruct (pystr_eqb (name crit) formatting_name) eqn:E2; [| done].
    apply pystr_eqb_true in E2.
    assert (name crit <> k) as Hne.
    { destruct H as [H | H]; [done |]. intros <-. apply H. by right. }
    destruct (any_keyword structure_keywords tl); by rewrite lookup_insert_ne.
Qed.


Lemma adjust_fold_other (tl : pystr) (criteria : list criterion) :
  forall (m : gmap pystr Z) (k : pystr),
  (forall c, c ∈ criteria -> name c <> k \/ ~ targeted k) ->
  fold_left (adjust_step tl) criteria m !! k = m !! k.
Proof.
  induction criteria as [| c l IH]; intros m k H; simpl; [done |].
  rewrite IH.
  - apply adjust_step_other, H. by left.
  - intros c' Hc'. apply H. by right.
Qed.




(** ** The cache *)

Lemma assoc_app (k : pystr) (l1 l2 : list (pystr * json)) :
  assoc k (l1 ++ l2) = match assoc k l1 with Some v => Some v | None => assoc k l2 end.
Proof.
  induction l1 as [| [k' v] l1 IH]; simpl; [done |].
  by destruct (pystr_eqb k k').
Qed.

Lemma assoc_remove (k : pystr) (c : LRU.t) : assoc k (LRU.remove k c) = None.
Proof.
  induction c as [| [k' v] c IH]; simpl; [done |].
  unfold LRU.has_key; simpl.
  destruct (pystr_eqb k k') eqn:E; simpl; [done |]. by rewrite E.
Qed.

Lemma assoc_contains (k : pystr) (c : LRU.t) :
  LRU.contains k c = match assoc k c with Some _ => true | None => false end.
Proof.
  induction c as [| [k' v] c IH]; simpl; [done |].
  unfold LRU.has_key at 1; simpl. by destruct (pystr_eqb k k').
Qed.

Lemma assoc_drop_none (k : pystr) (c : LRU.t) (n : nat) :
  assoc k c = None -> assoc k (drop n c) = None.
Proof.
  revert n. induction c as [| [k' v] c IH]; intros n H; [by destruct n |].
  simpl in H. destruct (pystr_eqb k k') eqn:E; [done |].
  destruct n; simpl; [by rewrite E | by apply IH].
Qed.

(** After [cache[k] = v] the cache holds [v] under [k], evictions or not. *)
Lemma assoc_setitem (k : pystr) (v : json) (c : LRU.t) :
  assoc k (LRU.setitem k v c) = Some v.
Proof.
  unfold LRU.setitem. rewrite assoc_contains.
  destruct (assoc k c) eqn:E; rewrite assoc_app.
  - rewrite assoc_remove. simpl. by rewrite pystr_eqb_refl.
  - rewrite assoc_drop_none by done. simpl. by rewrite pystr_eqb_refl.
Qed.

Lemma getitem_miss (k : pystr) (c : LRU.t) :
  assoc k c = None -> LRU.getitem k c = None.
Proof. intros H. unfold LRU.getitem. by rewrite H. Qed.








(** C7. A query that misses the cache and gets the response [v] returns [v];
    if the counter plus the size of [v] stays within the 10 MB bound, the
    cache then holds [v] under the key of the text and the next query of that
    text returns [v] from the cache; otherwise the store is skipped: the
    client, its entries included, is as it was, and the key is still
    absent. *)
Theorem cache_round_trip (self : ChatGPTClient) (text : pystr) (retries : Z)
    (post : nat -> res json) (v : json) :
  cache_get self (cache_key_of text) = None ->
  0 < retries ->
  post 0%nat = Ok v ->
  exists self' evs,
    query self text retries post = Ok (self', v, evs)
    /\ (if (current_cache_size_bytes self + json_dumps_len v
            <=? max_cache_size_bytes)%N
        then cache_get self' (cache_key_of text) = Some v
             /\ forall retries' post',
                 exists self'',
                   query self' text retries' post'
                   = Ok (self'', v, [EvCacheHit (cache_key_of text)])
        else self' = self /\ cache_get self' (cache_key_of text) = None).
Proof.
  intros Hmiss Hpos Hpost. unfold cache_get in *.
  unfold query. rewrite (getitem_miss _ _ Hmiss).
  destruct (Z.to_nat retries) as [| fuel] eqn:Hfuel; [lia |].
  simpl. rewrite Hpost. unfold store_response, fits.
  destruct (current_cache_size_bytes self + json_dumps_len v <=? max_cache_size_bytes)%N.
  - eexists _, _. split; [reflexivity |]. simpl. split.
    + apply assoc_setitem.
    + intros retries' post'. unfold query, LRU.getitem. simpl.
      rewrite assoc_setitem. eexists. reflexivity.
  - eexists _, _. split; [reflexivity |]. done.
Qed.

(** ** The retry loop *)

Lemma attempts_total (retries : Z) (k : pystr) (post : nat -> res json) :
  (forall a e, post a = Raise e -> is_client_error e = true) ->
  forall (fuel attempt : nat) (self : ChatGPTClient),
  exists self' r evs, attempts fuel attempt retries self k post = Ok (self', r, evs).
Proof.
  intros H. induction fuel as [| fuel IH]; intros attempt self; simpl.
  - by eexists _, _, _.
  - destruct (post attempt) as [v | e] eqn:Hp.
    + destruct (store_response self k v). by eexists _, _, _.
    + destruct (IH (S attempt) self) as (s & r & evs & ->).
      rewrite (H _ _ Hp).
      destruct (is_rate_limited e); simpl; [by eexists _, _, _ |].
      destruct (Z.of_nat attempt =? retries - 1); by eexists _, _, _.
Qed.

Lemma attempts_all_fail (retries : Z) (k : pystr) (post : nat -> res json) :
  forall (fuel attempt : nat) (self self' : ChatGPTClient) r evs,
  (forall a, (attempt <= a < attempt + fuel)%nat -> is_ok (post a) = false) ->
  attempts fuel attempt retries self k post = Ok (self', r, evs) ->
  r = JNull /\ self' = self.
Proof.
  induction fuel as [| fuel IH]; intros attempt self self' r evs Hfail Hrun;
    simpl in Hrun.
  - by inversion Hrun.
  - destruct (post attempt) as [v | e] eqn:Hp.
    { specialize (Hfail attempt). rewrite Hp in Hfail. simpl in Hfail.
      assert (true = false) by (apply Hfail; lia). done. }
    assert (forall s' r' evs',
              attempts fuel (S attempt) retries self k post = Ok (s', r', evs') ->
              r' = JNull /\ s' = self) as Hrec.
    { intros s' r' evs'. apply IH. intros a Ha. apply Hfail. lia. }
    destruct (is_rate_limited e).
    + destruct (attempts fuel (S attempt) retries self k post) as [[[s r'] evs'] |];
        simpl in Hrun; [| done].
      inversion Hrun; subst. by eapply Hrec.
    + destruct (is_client_error e); [| done].
      destruct (Z.of_nat attempt =? retries - 1); [by inversion Hrun |].
      destruct (attempts fuel (S attempt) retries self k post) as [[[s r'] evs'] |];
        simpl in Hrun; [| done].
      inversion Hrun; subst. by eapply Hrec.
Qed.

(** C8. When every failure of a request is an HTTP error status, a transport
    error or a timeout, [query] does not raise: it returns a value, and on a
    cache miss with every attempt failing (the last one included, whatever
    the number of attempts) that value is [None] and the client is
    unchanged. *)
Theorem query_never_raises (self : ChatGPTClient) (text : pystr) (retries : Z)
    (post : nat -> res json) :
  (forall a e, post a = Raise e -> is_client_error e = true) ->
  exists self' r evs,
    query self text retries post = Ok (self', r, evs)
    /\ (cache_get self (cache_key_of text) = None ->
        (forall a, (a < Z.to_nat retries)%nat -> is_ok (post a) = false) ->
        r = JNull /\ self' = self).
Proof.
  intros H. unfold query, cache_get, LRU.getitem.
  destruct (assoc (cache_key_of text) (cache self)) as [v |] eqn:E.
  - eexists _, _, _. split; [reflexivity |]. done.
  - destruct (attempts_total retries (cache_key_of text) post H
                (Z.to_nat retries) 0%nat self) as (s & r & evs & Hrun).
    exists s, r, evs. split; [exact Hrun |].
    intros _ Hfail. eapply attempts_all_fail; [| exact Hrun].
    intros a Ha. apply Hfail. lia.
Qed.

(** An exception of another class raised by a request is not caught. *)
Lemma other_exception_propagates (self : ChatGPTClient) (text : pystr)
    (post : nat -> res json) :
  cache_get self (cache_key_of text) = None ->
  post 0%nat = Raise ValueError ->
  query self text 3 post = Raise ValueError.
Proof.
  intros Hmiss Hpost. unfold cache_get in Hmiss. unfold query.
  rewrite (getitem_miss _ _ Hmiss). simpl. by rewrite Hpost.
Qed.

(** ** The byte counter *)





(** ** Comparisons *)

Lemma py_gt_number (v : json) (z : Z) :
  is_number v = true -> exists b, py_gt v z = Ok b.
Proof. destruct v as [| | | [] | | |]; simpl; try done; by eexists. Qed.

Lemma py_gt_ok_number (v : json) (z : Z) (b : bool) :
  py_gt v z = Ok b -> is_number v = true.
Proof. by destruct v. Qed.

Lemma py_gt_mono (v : json) (a b : Z) :
  py_gt v a = Ok true -> b <= a -> py_gt v b = Ok true.
Proof.
  destruct v as [| c | z | [| n | q] | | |]; simpl; try done; intros H Hle;
    injection H as H1; f_equal; try exact H1;
    unfold Qgtb_Z in *; apply Z.ltb_lt in H1; apply Z.ltb_lt; nia.
Qed.

Lemma py_lt_not_gt (v : json) (z : Z) :
  py_lt v z = Ok true -> py_gt v z = Ok false.
Proof.
  destruct v as [| c | a | [| n | q] | | |]; simpl; try done; intros H;
    injection H as H1; f_equal; try (by rewrite H1);
    unfold Qgtb_Z, Qltb_Z in *; apply Z.ltb_lt in H1; apply Z.ltb_ge; lia.
Qed.

Lemma score_invalid_total (score : json) (max : Z) :
  exists b, score_invalid score max = Ok b.
Proof.
  unfold score_invalid.
  destruct score as [| c | z | f | | |]; simpl; try by eexists.
  - destruct (Z_of_bool c <? 0); by eexists.
  - destruct (z <? 0); by eexists.
Qed.

Lemma clamp_number (score : json) (max : Z) :
  is_number score = true ->
  exists e, clamp score max = Ok e /\ is_number e = true.
Proof.
  intros H. unfold clamp, py_max0.
  destruct (py_gt_number score 0 H) as [b ->]. simpl.
  unfold py_min. destruct b.
  - destruct (py_gt_number score max H) as [b' ->]. simpl.
    destruct b'; by eexists.
  - simpl. destruct (max <? 0); by eexists.
Qed.

Lemma clamp_ok_number (score e : json) (max : Z) :
  clamp score max = Ok e -> is_number score = true /\ is_number e = true.
Proof.
  unfold clamp, py_max0. intros H.
  destruct (py_gt score 0) as [b |] eqn:E; [| done].
  pose proof (py_gt_ok_number _ _ _ E) as Hn. split; [done |].
  destruct (clamp_number score max Hn) as (e' & He & Hn').
  unfold clamp, py_max0 in He. rewrite E in He. simpl in *. congruence.
Qed.



Lemma score_valid_int (score : json) (max : Z) :
  score_invalid score max = Ok false -> is_int score = true.
Proof. unfold score_invalid. by destruct (is_int score). Qed.

Lemma is_int_number (v : json) : is_int v = true -> is_number v = true.
Proof. by destruct v. Qed.

(** The correction of a score only ever fails with a [TypeError]. *)
Lemma stored_score_raises (score old : json) (max : Z) (e : exn) :
  stored_score score max old = Raise e -> e = TypeError.
Proof.
  unfold stored_score, effective_score.
  destruct (score_invalid score max) as [[] |] eqn:Ei; simpl.
  - destruct (clamp score max) as [c |] eqn:E; simpl.
    + destruct (clamp_ok_number _ _ _ E) as [_ Hn].
      destruct (py_gt_number c 0 Hn) as [b' ->]. done.
    + unfold clamp, py_max0, py_min in E.
      destruct score as [| c | z | [| n | q] | | |]; simpl in E; try congruence;
        repeat match type of E with
               | context [if ?b then _ else _] => destruct b
               end; simpl in E; congruence.
  - apply score_valid_int, is_int_number in Ei.
    destruct (py_gt_number score 0 Ei) as [b ->]. done.
  - destruct (score_invalid_total score max) as [b Hb]. congruence.
Qed.
(** ** What is stored for one criterion *)





(** A score above the maximum is stored as the maximum. *)
Lemma stored_above_max (score old : json) (max : Z) :
  py_gt score max = Ok true -> 1 <= max ->
  stored_score score max old = Ok (JInt max)
  /\ score_invalid score max = Ok true.
Proof.
  intros Hgt Hmax.
  pose proof (py_gt_mono _ _ 0 Hgt ltac:(lia)) as Hpos.
  assert (score_invalid score max = Ok true) as Hinv.
  { unfold score_invalid. destruct (is_int score) eqn:Ei; simpl; [| done].
    rewrite Hgt. destruct (py_lt score 0) as [[] |] eqn:El; simpl; try done.
    by destruct score. }
  split; [| exact Hinv].
  unfold stored_score, effective_score. rewrite Hinv. simpl.
  unfold clamp, py_max0, py_min. rewrite Hpos. simpl. rewrite Hgt. simpl.
  destruct (0 <? max) eqn:E; [done |]. apply Z.ltb_ge in E. lia.
Qed.

(** A score below zero is clamped to zero and leaves what was there. *)
Lemma stored_below_zero (score old : json) (max : Z) :
  py_lt score 0 = Ok true ->
  stored_score score max old = Ok old
  /\ score_invalid score max = Ok true.
Proof.
  intros Hlt.
  pose proof (py_lt_not_gt _ _ Hlt) as Hpos.
  assert (score_invalid score max = Ok true) as Hinv.
  { unfold score_invalid. destruct (is_int score); simpl; [| done]. by rewrite Hlt. }
  split; [| exact Hinv].
  unfold stored_score, effective_score. rewrite Hinv. simpl.
  unfold clamp, py_max0, py_min. rewrite Hpos. simpl.
  destruct (max <? 0) eqn:E; simpl.
  - destruct (0 <? max) eqn:E'; [| done].
    apply Z.ltb_lt in E, E'. lia.
  - done.
Qed.



(** ** The overlay of one criterion *)

Local Opaque u.

Lemma overlay_score_spec (sc : list (pystr * json)) (c : criterion)
    (st : ExtractionResult * list log_record) (old : json) :
  scores (fst st) !! name c = Some old ->
  overlay_score (JObj sc) c st =
  match assoc (name c) sc with
  | Some (JObj entry) =>
    let score := get_or entry (u "score") (JInt 0) in
    let reason := get_or entry (u "reason") (JStr default_reason) in
    match stored_score score (max_score c) old with
    | Ok v =>
      ((with_score (fst st) (name c) v,
        (snd st ++ invalid_log c score)
        ++ [LogScore (name c) v (logged_reason score reason (max_score c))]),
       Ok tt)
    | Raise e => ((fst st, snd st ++ invalid_log c score), Raise e)
    end
  | _ => ((fst st, snd st ++ [LogCriterionMissing (name c)]), Ok tt)
  end.
Proof.
  intros Hold. destruct st as [r lg]. simpl in Hold.
  unfold overlay_score, and_then, lift, ret, logger.
  unfold py_in, getitem_str, dict_get.
  destruct (assoc (name c) sc) as [entry |] eqn:Ea; [| done].
  destruct entry as [| | | | | | entry]; try done.
  cbv zeta.
  generalize (get_or entry (u "score") (JInt 0)).
  generalize (get_or entry (u "reason") (JStr default_reason)).
  intros reason score.
  unfold stored_score, effective_score, invalid_log, logged_reason.
  destruct (score_invalid score (max_score c)) as [[] |] eqn:Ei; simpl.
  - destruct (clamp score (max_score c)) as [e |] eqn:Ec; simpl; [| done].
    destruct (py_gt e 0) as [[] |] eqn:Ep; simpl; try done.
    + unfold set_score, get_score. simpl. by rewrite lookup_insert_eq.
    + unfold set_score, get_score. simpl. rewrite Hold. simpl.
      by rewrite lookup_insert_eq.
  - destruct (py_gt score 0) as [[] |] eqn:Ep; simpl.
    + unfold set_score, get_score. simpl. rewrite lookup_insert_eq.
      by rewrite app_nil_r.
    + unfold set_score, get_score. simpl. rewrite Hold. simpl.
      rewrite lookup_insert_eq. by rewrite app_nil_r.
    + by rewrite app_nil_r.
  - destruct (score_invalid_total score (max_score c)) as [b Hb]. congruence.
Qed.

Lemma overlay_score_frame (sc : list (pystr * json)) (c : criterion)
    (st : ExtractionResult * list log_record) :
  is_Some (scores (fst st) !! name c) ->
  let out := overlay_score (JObj sc) c st in
  metadata (fst (fst out)) = metadata (fst st)
  /\ recommendations (fst (fst out)) = recommendations (fst st)
  /\ (forall k, k <> name c -> scores (fst (fst out)) !! k = scores (fst st) !! k)
  /\ is_Some (scores (fst (fst out)) !! name c)
  /\ (exists l, snd (fst out) = snd st ++ l)
  /\ (forall e, snd out = Raise e -> e = TypeError).
Proof.
  intros [old Hold]. cbv zeta. rewrite (overlay_score_spec sc c st old Hold).
  destruct (assoc (name c) sc) as [[| | | | | | entry] |];
    try (simpl; repeat split; [by rewrite Hold | by eexists | done]).
  cbv zeta.
  destruct (stored_score _ (max_score c) old) as [v | e] eqn:Es; simpl.
  - repeat split.
    + intros k Hk. by rewrite lookup_insert_ne.
    + by rewrite lookup_insert_eq.
    + rewrite <- app_assoc. by eexists.
    + done.
  - repeat split.
    + by rewrite Hold.
    + by eexists.
    + intros e' [= <-]. by eapply stored_score_raises.
Qed.

Lemma for_each_cons {A : Type} (f : A -> body unit) (a : A) (l : list A)
    (st : ExtractionResult * list log_record) :
  for_each f (a :: l) st =
  match f a st with
  | (st', Ok _) => for_each f l st'
  | (st', Raise e) => (st', Raise e)
  end.
Proof. done. Qed.

Lemma for_each_frame (sc : list (pystr * json)) (criteria : list criterion) :
  forall st : ExtractionResult * list log_record,
  (forall c, c ∈ criteria -> is_Some (scores (fst st) !! name c)) ->
  let out := for_each (overlay_score (JObj sc)) criteria st in
  metadata (fst (fst out)) = metadata (fst st)
  /\ recommendations (fst (fst out)) = recommendations (fst st)
  /\ (forall k, k ∉ map name criteria ->
        scores (fst (fst out)) !! k = scores (fst st) !! k)
  /\ (forall k, is_Some (scores (fst st) !! k) ->
        is_Some (scores (fst (fst out)) !! k))
  /\ (exists l, snd (fst out) = snd st ++ l)
  /\ (forall e, snd out = Raise e -> e = TypeError).
Proof.
  induction criteria as [| c0 l IH]; intros st Hall; cbv zeta.
  - simpl. repeat split; try done. exists []. by rewrite app_nil_r.
  - rewrite for_each_cons.
    assert (is_Some (scores (fst st) !! name c0)) as H0 by (apply Hall; by left).
    destruct (overlay_score_frame sc c0 st H0) as (Hm & Hr & Hk & Hs & [l0 Hl] & He).
    destruct (overlay_score (JObj sc) c0 st) as [st1 [[] | e]] eqn:E1; simpl in *.
    + assert (forall k, is_Some (scores (fst st) !! k) ->
                        is_Some (scores (fst st1) !! k)) as Hpres.
      { intros k Hsome. destruct (decide (k = name c0)) as [-> | Hne]; [done |].
        by rewrite Hk. }
      destruct (IH st1) as (Hm' & Hr' & Hk' & Hs' & [l1 Hl'] & He').
      { intros c Hc. apply Hpres, Hall. by right. }
      cbv zeta in *. repeat split.
      * congruence.
      * congruence.
      * intros k Hnot. apply not_elem_of_cons in Hnot as [Hne Hnot].
        rewrite Hk' by done. by apply Hk.
      * intros k Hsome. by apply Hs', Hpres.
      * exists (l0 ++ l1). rewrite Hl', Hl. by rewrite app_assoc.
      * done.
    + repeat split; try done.
      * intros k Hnot. apply not_elem_of_cons in Hnot as [Hne Hnot]. by apply Hk.
      * intros k Hsome. destruct (decide (k = name c0)) as [-> | Hne]; [done |].
        by rewrite Hk.
      * by exists l0.
Qed.

(** With distinct names, what the loop leaves under the name of a criterion
    is what its own iteration stored. *)
Lemma for_each_at (sc : list (pystr * json)) (criteria : list criterion) :
  forall (st st' : ExtractionResult * list log_record) (c : criterion) (old : json),
  NoDup (map name criteria) ->
  (forall c', c' ∈ criteria -> is_Some (scores (fst st) !! name c')) ->
  for_each (overlay_score (JObj sc)) criteria st = (st', Ok tt) ->
  c ∈ criteria ->
  scores (fst st) !! name c = Some old ->
  match assoc (name c) sc with
  | Some (JObj entry) =>
    let score := get_or entry (u "score") (JInt 0) in
    let reason := get_or entry (u "reason") (JStr default_reason) in
    exists v,
      stored_score score (max_score c) old = Ok v
      /\ scores (fst st') !! name c = Some v
      /\ LogScore (name c) v (logged_reason score reason (max_score c)) ∈ snd st'
  | _ => scores (fst st') !! name c = Some old
  end.
Proof.
  induction criteria as [| c0 l IH]; intros st st' c old Hnd Hall Hrun Hin Hold.
  - by apply elem_of_nil in Hin.
  - simpl in Hnd. apply NoDup_cons in Hnd as [Hnotin Hnd].
    rewrite for_each_cons in Hrun.
    assert (is_Some (scores (fst st) !! name c0)) as H0 by (apply Hall; by left).
    destruct (overlay_score_frame sc c0 st H0) as (_ & _ & Hk & Hs & _ & _).
    pose proof (overlay_score_spec sc c0 st) as Hspec.
    destruct (overlay_score (JObj sc) c0 st) as [st1 [[] | e]] eqn:E1;
      simpl in Hk, Hs; [| done].
    assert (forall c', c' ∈ l -> is_Some (scores (fst st1) !! name c')) as Hall1.
    { intros c' Hc'. destruct (decide (name c' = name c0)) as [-> | Hne]; [done |].
      rewrite Hk by done. apply Hall. by right. }
    destruct (for_each_frame sc l st1 Hall1) as (_ & _ & Hk' & _ & [l1 Hl1] & _).
    rewrite Hrun in Hk', Hl1. simpl in Hk', Hl1.
    apply elem_of_cons in Hin as [-> | Hin].
    + specialize (Hspec old Hold).
      destruct (assoc (name c0) sc) as [[| | | | | | entry] |];
        try (injection Hspec as ->; rewrite Hk' by done; simpl; by rewrite Hold).
      cbv zeta in *.
      destruct (stored_score _ (max_score c0) old) as [v | e]; [| done].
      injection Hspec as ->. exists v. split; [done |]. split.
      * rewrite Hk' by done. simpl. by rewrite lookup_insert_eq.
      * rewrite Hl1. simpl. apply elem_of_app. left. apply elem_of_app. right.
        by apply list_elem_of_singleton.
    + apply (IH st1 st' c old Hnd Hall1 Hrun Hin).
      rewrite Hk; [done |]. intros Heq. apply Hnotin. rewrite <- Heq.
      apply list_elem_of_fmap. by exists c.
Qed.

(** ** The fallback scores *)

Lemma fallback_fold_other (criteria : list criterion) :
  forall (m : gmap pystr json) (k : pystr),
  k ∉ map name criteria ->
  fold_left (fun scores c => <[name c := JInt (fallback_score c)]> scores) criteria m !! k
  = m !! k.
Proof.
  induction criteria as [| c l IH]; intros m k Hk; simpl; [done |].
  apply not_elem_of_cons in Hk as [Hne Hk].
  rewrite IH by done. by rewrite lookup_insert_ne.
Qed.

Lemma fallback_fold_some (criteria : list criterion) :
  forall (m : gmap pystr json) (k : pystr),
  is_Some (m !! k) \/ k ∈ map name criteria ->
  is_Some (fold_left (fun scores c => <[name c := JInt (fallback_score c)]> scores)
                     criteria m !! k).
Proof.
  induction criteria as [| c l IH]; intros m k H; simpl.
  - destruct H as [H | H]; [done |]. by apply elem_of_nil in H.
  - apply IH. destruct (decide (k = name c)) as [-> | Hne].
    + left. by rewrite lookup_insert_eq.
    + destruct H as [H | H].
      * left. by rewrite lookup_insert_ne.
      * right. by apply elem_of_cons in H as [? | ?].
Qed.

Lemma fallback_lookup (criteria : list criterion) (c : criterion) :
  c ∈ criteria -> is_Some (evaluate_work_fallback criteria !! name c).
Proof.
  intros H. apply fallback_fold_some. right. apply list_elem_of_fmap. by exists c.
Qed.

Lemma fallback_lookup_nodup (criteria : list criterion) (c : criterion) :
  NoDup (map name criteria) -> c ∈ criteria ->
  evaluate_work_fallback criteria !! name c = Some (JInt (fallback_score c)).
Proof.
  unfold evaluate_work_fallback. generalize (∅ : gmap pystr json).
  induction criteria as [| c0 l IH]; intros m Hnd Hin; simpl.
  - by apply elem_of_nil in Hin.
  - simpl in Hnd. apply NoDup_cons in Hnd as [Hnotin Hnd].
    apply elem_of_cons in Hin as [-> | Hin].
    + rewrite fallback_fold_other by done. by rewrite lookup_insert_eq.
    + by apply IH.
Qed.

(** ** The recommendation pair *)

Lemma re_split_nonempty (s cur : pystr) : (1 <= length (re_split_aux cur s))%nat.
Proof.
  revert cur. induction s as [| c r IH]; intros cur; simpl; [lia |].
  destruct (is_terminator c); simpl; [lia | apply IH].
Qed.

Lemma has_sentences_terminator (s : pystr) :
  has_sentences (JStr s) = contains_terminator s.
Proof.
  unfold has_sentences, contains_terminator, re_split_terminators.
  generalize (@nil N) as cur.
  induction s as [| c r IH]; intros cur; simpl; [done |].
  destruct (is_terminator c); simpl; [| apply IH].
  pose proof (re_split_nonempty r []) as H.
  destruct (length (re_split_aux [] r)); [lia | done].
Qed.

Lemma terminator_not_space (c : N) : is_terminator c = true -> isspace c = false.
Proof.
  unfold is_terminator. rewrite !orb_true_iff, !N.eqb_eq.
  by intros [[-> | ->] | ->].
Qed.

Lemma lstrip_keeps (x : N) (s : pystr) :
  isspace x = false -> In x s -> In x (lstrip s).
Proof.
  intros Hx. induction s as [| c r IH]; simpl; [done |].
  destruct (isspace c) eqn:Ec; [| done].
  intros [-> | H]; [congruence | by apply IH].
Qed.

Lemma terminator_nonblank (s : pystr) :
  contains_terminator s = true -> is_nonblank_str (JStr s) = true /\ s <> [].
Proof.
  unfold contains_terminator. intros H.
  apply existsb_exists in H as (x & Hin & Hx).
  apply terminator_not_space in Hx. split; [| by destruct s].
  assert (In x (strip s)) as Hs.
  { unfold strip. apply in_rev. rewrite rev_involutive.
    apply lstrip_keeps; [done |]. apply -> in_rev. by apply lstrip_keeps. }
  simpl. by destruct (strip s).
Qed.

Lemma blank_is_empty (s : pystr) : s = [] -> is_nonblank_str (JStr s) = false.
Proof. by intros ->. Qed.

(** The test of the code is the pair of the specification. *)
Lemma accepts_valid_pair (l : list json) : accepts l = valid_pair (JArr l).
Proof.
  unfold accepts, valid_pair.
  destruct l as [| x [| y [| z t]]]; try done.
  - simpl. by destruct x.
  - destruct x as [| | | | a | |]; try done.
    destruct y as [| | | | b | |];
      try (cbn [forallb is_nonblank_str length Nat.eqb andb];
           by rewrite ?andb_false_r).
    cbn [forallb length Nat.eqb andb].
    rewrite !has_sentences_terminator.
    unfold total_words, word_count, fold_right.
    rewrite Nat.add_0_r, !andb_true_r.
    destruct (contains_terminator a) eqn:Ea.
    + destruct (terminator_nonblank a Ea) as [-> Hna].
      destruct (contains_terminator b) eqn:Eb.
      * destruct (terminator_nonblank b Eb) as [-> Hnb].
        rewrite !bool_decide_eq_false_2 by done. simpl.
        by rewrite !andb_true_r.
      * by rewrite !andb_false_r.
    + by rewrite !andb_false_r.
  - simpl. by destruct x, y.
Qed.

(** ** The overlay of a response *)

Lemma content_has_choices (response content : json) :
  response_content response = Ok content -> has_choices response = Ok true.
Proof.
  unfold response_content, has_choices, getitem_str, py_in.
  destruct response as [| | | | | | fields]; try done.
  destruct (assoc (u "choices") fields) as [c |] eqn:Ec; [| done].
  cbn [bind]. intros H.
  assert (truthy (JObj fields) = true) as -> by (by destruct fields).
  destruct c as [| | | | s | items |]; try done.
  - destruct s; [done |]. by cbn in H.
  - by destruct items.
Qed.

Lemma no_choices_no_answer (response : json) :
  has_choices response = Ok false -> ai_parsed response = None.
Proof.
  intros H. unfold ai_parsed.
  destruct (response_content response) as [content |] eqn:E; [| done].
  apply content_has_choices in E. congruence.
Qed.

Lemma overlay_cases (criteria : list criterion) (response : json)
    (st0 : ExtractionResult * list log_record) :
  overlay criteria response st0 =
  match response_content response with
  | Raise e => (st0, Raise e)
  | Ok content =>
    match parse_content content with
    | Raise e => (st0, Raise e)
    | Ok parsed =>
      (_ <~ overlay_metadata parsed ;;
       _ <~ overlay_scores criteria parsed ;;
       overlay_recommendations parsed) st0
    end
  end.
Proof.
  unfold overlay, and_then at 1 2, lift.
  destruct (response_content response) as [content |]; [| done].
  by destruct (parse_content content).
Qed.

Lemma overlay_metadata_obj (p : list (pystr * json))
    (st : ExtractionResult * list log_record) :
  overlay_metadata (JObj p) st =
  ((match assoc (u "metadata") p with
    | Some (JObj m) => with_metadata (fst st) (JObj m)
    | _ => fst st
    end, snd st), Ok tt).
Proof.
  unfold overlay_metadata, and_then, lift, ret, py_in, getitem_str, set_metadata.
  destruct st as [r lg].
  destruct (assoc (u "metadata") p) as [[| | | | | | m] |]; done.
Qed.

Lemma overlay_scores_obj (criteria : list criterion) (p : list (pystr * json))
    (st : ExtractionResult * list log_record) :
  overlay_scores criteria (JObj p) st =
  match assoc (u "scores") p with
  | Some (JObj sc) => for_each (overlay_score (JObj sc)) criteria st
  | _ => (st, Ok tt)
  end.
Proof.
  unfold overlay_scores, and_then, lift, ret, py_in, getitem_str.
  destruct (assoc (u "scores") p) as [[| | | | | | sc] |]; done.
Qed.

Lemma overlay_recommendations_obj (p : list (pystr * json))
    (st : ExtractionResult * list log_record) :
  exists l,
    overlay_recommendations (JObj p) st =
    ((match assoc (u "recommendations") p with
      | Some (JArr recs) =>
        if accepts recs then with_recommendations (fst st) recs else fst st
      | _ => fst st
      end, snd st ++ l), Ok tt).
Proof.
  unfold overlay_recommendations, and_then, lift, ret, py_in, getitem_str,
    set_recommendations, logger, accepts.
  destruct st as [r lg].
  destruct (assoc (u "recommendations") p) as [[| | | | | recs |] |];
    try (exists []; by rewrite app_nil_r).
  destruct ((length recs =? 2)%nat && forallb is_nonblank_str recs); cbn [andb].
  - destruct ((total_words recs <=? 60)%nat); cbn [andb].
    + destruct (forallb has_sentences recs).
      * exists []. by rewrite app_nil_r.
      * by eexists.
    + by eexists.
  - by eexists.
Qed.

(** An answer that is not an object is left aside, or makes the merge
    raise. *)
Lemma overlay_not_object (criteria : list criterion) (parsed : json)
    (st : ExtractionResult * list log_record) :
  is_dict parsed = false ->
  let out := (_ <~ overlay_metadata parsed ;;
              _ <~ overlay_scores criteria parsed ;;
              overlay_recommendations parsed) st in
  out = (st, Ok tt) \/ out = (st, Raise TypeError).
Proof.
  intros Hd. cbv zeta.
  unfold overlay_metadata, overlay_scores, overlay_recommendations,
    and_then, lift, ret, py_in, getitem_str.
  destruct parsed as [| | | | s | l |]; try done; try by right.
  - destruct (contains (u "metadata") s); [by right |].
    destruct (contains (u "scores") s); [by right |].
    destruct (contains (u "recommendations") s); [by right | by left].
  - destruct (existsb (is_str_eq (u "metadata")) l); [by right |].
    destruct (existsb (is_str_eq (u "scores")) l); [by right |].
    destruct (existsb (is_str_eq (u "recommendations")) l); [by right | by left].
Qed.

Lemma account_fst (criteria : list criterion)
    (st : ExtractionResult * list log_record) :
  fst (account criteria st) = fst st
  /\ exists l, snd (account criteria st) = snd st ++ l.
Proof. unfold account. simpl. split; [done | by eexists]. Qed.

(** What the merge returns, when it returns. *)
Lemma merge_response_inv (filename : pystr) (criteria : list criterion)
    (response : json) (r : ExtractionResult) (lg : list log_record) :
  merge_response filename criteria response = Ok (r, lg) ->
  metadata r = expected_metadata response
  /\ recommendations r = expected_recommendations filename response
  /\ (forall c, c ∈ criteria -> is_Some (scores r !! name c))
  /\ (NoDup (map name criteria) ->
      forall c, c ∈ criteria ->
        match ai_score response (name c) with
        | Some (score, reason) =>
          exists v,
            stored_score score (max_score c) (JInt (fallback_score c)) = Ok v
            /\ scores r !! name c = Some v
            /\ LogScore (name c) v (logged_reason score reason (max_score c)) ∈ lg
        | None => scores r !! name c = Some (JInt (fallback_score c))
        end).
Proof.
  intros H.
  assert (ai_parsed response = None \/
          (exists parsed, ai_parsed response = Some parsed /\ is_dict parsed = false) ->
          r = fallback_result filename criteria ->
          metadata r = expected_metadata response
          /\ recommendations r = expected_recommendations filename response
          /\ (forall c, c ∈ criteria -> is_Some (scores r !! name c))
          /\ (NoDup (map name criteria) ->
              forall c, c ∈ criteria ->
                match ai_score response (name c) with
                | Some (score, reason) =>
                  exists v,
                    stored_score score (max_score c) (JInt (fallback_score c)) = Ok v
                    /\ scores r !! name c = Some v
                    /\ LogScore (name c) v (logged_reason score reason (max_score c)) ∈ lg
                | None => scores r !! name c = Some (JInt (fallback_score c))
                end)) as Hfallback.
  { intros Hnone ->.
    assert (forall k, ai_field response k = None) as Hf.
    { intros k. unfold ai_field.
      destruct Hnone as [-> | (parsed & -> & Hd)]; [done | by destruct parsed]. }
    unfold expected_metadata, expected_recommendations, ai_score. rewrite !Hf.
    repeat split; try done.
    - intros c Hc. by apply fallback_lookup.
    - intros Hnd c Hc. by apply fallback_lookup_nodup. }
  unfold merge_response in H.
  destruct (has_choices response) as [[] |] eqn:Hch; cbn [bind] in H; [| | done].
  2:{ injection H as Hr _. apply Hfallback; [| by rewrite <- Hr].
      left. by apply no_choices_no_answer. }
  rewrite overlay_cases in H.
  destruct (response_content response) as [content | e] eqn:Econtent.
  2:{ destruct (is_caught e); [| done]. injection H as Hr _.
      apply Hfallback; [| by rewrite <- Hr]. left. unfold ai_parsed.
      by rewrite Econtent. }
  destruct (parse_content content) as [parsed | e] eqn:Eparse.
  2:{ destruct (is_caught e); [| done]. injection H as Hr _.
      apply Hfallback; [| by rewrite <- Hr]. left. unfold ai_parsed.
      by rewrite Econtent, Eparse. }
  assert (ai_parsed response = Some parsed) as Hparsed.
  { unfold ai_parsed. by rewrite Econtent, Eparse. }
  destruct (is_dict parsed) eqn:Hd.
  2:{ destruct (overlay_not_object criteria parsed
                  (fallback_result filename criteria, []) Hd) as [Ho | Ho];
        cbv zeta in Ho; rewrite Ho in H; [| done].
      injection H as Hr _. apply Hfallback; [| by rewrite <- Hr].
      right. by exists parsed. }
  destruct parsed as [| | | | | | p]; try done. clear Hfallback Hd.
  unfold and_then in H. rewrite overlay_metadata_obj in H.
  rewrite overlay_scores_obj in H.
  cbn [fst snd] in H.
  set (r1 := match assoc (u "metadata") p with
             | Some (JObj m) => with_metadata (fallback_result filename criteria) (JObj m)
             | _ => fallback_result filename criteria
             end) in *.
  assert (scores r1 = evaluate_work_fallback criteria
          /\ recommendations r1 = generate_recommendations_fallback filename
          /\ metadata r1 = expected_metadata response) as (Hs1 & Hr1 & Hm1).
  { unfold expected_metadata, ai_field. rewrite Hparsed. unfold r1.
    by destruct (assoc (u "metadata") p) as [[| | | | | | m] |]. }
  assert (forall c, c ∈ criteria -> is_Some (scores (fst (r1, @nil log_record)) !! name c))
    as Hall.
  { intros c Hc. simpl. rewrite Hs1. by apply fallback_lookup. }
  assert (exists st2,
            match assoc (u "scores") p with
            | Some (JObj sc) => for_each (overlay_score (JObj sc)) criteria (r1, [])
            | _ => ((r1, []), Ok tt)
            end = (st2, Ok tt)) as [st2 Hst2].
  { destruct (assoc (u "scores") p) as [[| | | | | | sc] |]; try by eexists.
    destruct (for_each_frame sc criteria (r1, []) Hall) as (_ & _ & _ & _ & _ & He).
    destruct (for_each (overlay_score (JObj sc)) criteria (r1, [])) as [st2 [[] | e]];
      [by eexists |].
    simpl in H, He. rewrite (He e eq_refl) in H. done. }
  rewrite Hst2 in H.
  destruct (overlay_recommendations_obj p st2) as [l3 Hrec]. rewrite Hrec in H.
  injection H as Hr Hlg.
  assert (metadata (fst st2) = metadata r1
          /\ recommendations (fst st2) = recommendations r1
          /\ (forall c, c ∈ criteria -> is_Some (scores (fst st2) !! name c)))
    as (Hm2 & Hr2 & Hs2).
  { destruct (assoc (u "scores") p) as [[| | | | | | sc] |];
      try (injection Hst2 as <-; by repeat split).
    destruct (for_each_frame sc criteria (r1, []) Hall) as (Hm & Hrc & _ & Hs & _ & _).
    rewrite Hst2 in Hm, Hrc, Hs. simpl in Hm, Hrc, Hs.
    repeat split; try done. intros c Hc. by apply Hs, Hall. }
  assert (scores r = scores (fst st2)) as Hsr.
  { rewrite <- Hr.
    by destruct (assoc (u "recommendations") p) as [[| | | | | recs |] |];
      try destruct (accepts recs). }
  split; [| split; [| split]].
  - rewrite <- Hm1, <- Hm2, <- Hr.
    by destruct (assoc (u "recommendations") p) as [[| | | | | recs |] |];
      try destruct (accepts recs).
  - unfold expected_recommendations, ai_field. rewrite Hparsed, <- Hr.
    destruct (assoc (u "recommendations") p) as [[| | | | | recs |] |];
      try (cbn [valid_pair]; by rewrite Hr2, Hr1).
    rewrite <- accepts_valid_pair.
    destruct (accepts recs); [done | by rewrite Hr2, Hr1].
  - intros c Hc. rewrite Hsr. by apply Hs2.
  - intros Hnd c Hc. rewrite Hsr. unfold ai_score, ai_field. rewrite Hparsed.
    assert (scores (fst (r1, @nil log_record)) !! name c
            = Some (JInt (fallback_score c))) as Hold.
    { simpl. rewrite Hs1. by apply fallback_lookup_nodup. }
    destruct (assoc (u "scores") p) as [[| | | | | | sc] |];
      try (injection Hst2 as <-; exact Hold).
    pose proof (for_each_at sc criteria (r1, []) st2 c _ Hnd Hall Hst2 Hc Hold) as Hat.
    destruct (assoc (name c) sc) as [[| | | | | | entry] |]; try exact Hat.
    cbv zeta in Hat. destruct Hat as (v & Hv & Hlook & Hlog).
    exists v. split; [done |]. split; [done |].
    rewrite <- Hlg. cbn [fst snd]. apply elem_of_app. left.
    apply elem_of_app. by left.
Qed.

(** ** When the merge returns *)



Lemma extract_inv (text filename : pystr) (criteria : list criterion)
    (client client' : ChatGPTClient) (post : nat -> res json)
    (r : ExtractionResult) (lg : list log_record) :
  extract_metadata_and_scores text filename criteria client post = Ok (client', r, lg) ->
  exists response evs,
    query client text 3 post = Ok (client', response, evs)
    /\ merge_response filename criteria response = Ok (r, lg).
Proof.
  unfold extract_metadata_and_scores. intros H.
  destruct (query client text 3 post) as [[[c1 response] evs] |]; [| done].
  cbn [bind] in H.
  destruct (merge_response filename criteria response) as [[r' lg'] |] eqn:E;
    [| done].
  cbn [bind] in H. injection H as -> -> ->. by exists response, evs.
Qed.

Lemma extract_of_merge (text filename : pystr) (criteria : list criterion)
    (client client' : ChatGPTClient) (post : nat -> res json) (response : json)
    (evs : list event) :
  query client text 3 post = Ok (client', response, evs) ->
  extract_metadata_and_scores text filename criteria client post
  = bind (merge_response filename criteria response)
         (fun '(result, log) => Ok (client', result, log)).
Proof. unfold extract_metadata_and_scores. by intros ->. Qed.


Lemma extract_merge (text filename : pystr) (criteria : list criterion)
    (client client' : ChatGPTClient) (post : nat -> res json) (response : json)
    (evs : list event) (r : ExtractionResult) (lg : list log_record) :
  query client text 3 post = Ok (client', response, evs) ->
  extract_metadata_and_scores text filename criteria client post = Ok (client', r, lg) ->
  merge_response filename criteria response = Ok (r, lg).
Proof.
  intros Hq. rewrite (extract_of_merge _ _ _ _ _ _ _ _ Hq).
  destruct (merge_response filename criteria response) as [[r' lg'] |]; [| done].
  cbn [bind]. by intros [= -> ->].
Qed.

(** ** The metadata and score extractor *)




(** C4 (as amended). With distinct criterion names, an integer score [s]
    the AI proposed for a criterion of the list is stored as follows when
    the extractor returns: if [s] is above [max_score] (itself at least 1),
    the stored score is [max(0, min(s, max_score))], the maximum; if [s] is
    below 0, it is clamped to 0 and, as a zero, leaves the fallback score in
    place.  In both cases the reason logged with the score carries the
    correction note; the result itself holds no reason. *)
Theorem out_of_range_score_corrected (text filename : pystr)
    (criteria : list criterion) (chatgpt_client client' : ChatGPTClient)
    (post : nat -> res json) (response : json) (evs : list event)
    (r : ExtractionResult) (lg : list log_record) (c : criterion) (s : Z)
    (reason : json) :
  query chatgpt_client text 3 post = Ok (client', response, evs) ->
  extract_metadata_and_scores text filename criteria chatgpt_client post
  = Ok (client', r, lg) ->
  NoDup (map name criteria) ->
  c ∈ criteria ->
  ai_score response (name c) = Some (JInt s, reason) ->
  (max_score c < s -> 1 <= max_score c ->
   scores r !! name c = Some (JInt (Z.max 0 (Z.min s (max_score c))))
   /\ LogScore (name c) (JInt (Z.max 0 (Z.min s (max_score c))))
               (JStr (correction_note ++ format_value reason)) ∈ lg)
  /\ (s < 0 ->
      scores r !! name c = Some (JInt (fallback_score c))
      /\ LogScore (name c) (JInt (fallback_score c))
                  (JStr (correction_note ++ format_value reason)) ∈ lg).
Proof.
  intros Hq H Hnd Hc Hai.
  apply (extract_merge _ _ _ _ _ _ _ _ _ _ Hq) in H.
  apply merge_response_inv in H as (_ & _ & _ & H).
  specialize (H Hnd c Hc). rewrite Hai in H.
  destruct H as (v & Hv & Hlook & Hlog). split.
  - intros Hgt Hmax.
    destruct (stored_above_max (JInt s) (JInt (fallback_score c)) (max_score c))
      as [Hst Hinv]; [| done |].
    { simpl. f_equal. by apply Z.ltb_lt. }
    rewrite Hst in Hv. injection Hv as <-.
    unfold logged_reason in Hlog. rewrite Hinv in Hlog.
    replace (Z.max 0 (Z.min s (max_score c))) with (max_score c) by lia. done.
  - intros Hlt.
    destruct (stored_below_zero (JInt s) (JInt (fallback_score c)) (max_score c))
      as [Hst Hinv].
    { simpl. f_equal. by apply Z.ltb_lt. }
    rewrite Hst in Hv. injection Hv as <-.
    unfold logged_reason in Hlog. rewrite Hinv in Hlog. done.
Qed.



(** C6. The returned recommendations are all or nothing: when the answer of
    the AI holds a candidate that is exactly two non-empty strings of at most
    60 words together, each with a sentence terminator, they are the items of
    that candidate; in every other case they are the two fallback
    recommendations. *)
Theorem recommendations_all_or_nothing (text filename : pystr)
    (criteria : list criterion) (chatgpt_client client' : ChatGPTClient)
    (post : nat -> res json) (response : json) (evs : list event)
    (r : ExtractionResult) (lg : list log_record) :
  query chatgpt_client text 3 post = Ok (client', response, evs) ->
  extract_metadata_and_scores text filename criteria chatgpt_client post
  = Ok (client', r, lg) ->
  recommendations r =
  match ai_field response (u "recommendations") with
  | Some candidate =>
    if valid_pair candidate then pair_items candidate
    else generate_recommendations_fallback filename
  | None => generate_recommendations_fallback filename
  end.
Proof.
  intros Hq H.
  apply (extract_merge _ _ _ _ _ _ _ _ _ _ Hq) in H.
  by apply merge_response_inv in H as (_ & Hr & _).
Qed.

(** ** The criteria extractor *)



Lemma assoc_dict_set_ne (l : list (pystr * json)) (k k' : pystr) (v : json) :
  pystr_eqb k' k = false -> assoc k' (dict_set l k v) = assoc k' l.
Proof.
  intros Hne. induction l as [| [k0 x] l IH]; simpl.
  - by rewrite Hne.
  - destruct (pystr_eqb k k0) eqn:E; simpl.
    + apply pystr_eqb_true in E as <-. by rewrite Hne.
    + by rewrite IH.
Qed.

Lemma sum_max_score_ints (items : list json) (zs : list Z) :
  Forall2 (fun item z => getitem_str item (u "max_score") = Ok (JInt z)) items zs ->
  forall a, sum_max_score (JInt a) items = Ok (JInt (a + fold_right Z.add 0 zs)).
Proof.
  induction 1 as [| item z items zs Hz _ IH]; intros a; simpl.
  - f_equal. f_equal. lia.
  - rewrite Hz. cbn [bind py_add as_int]. rewrite IH. f_equal. f_equal. lia.
Qed.





(** ** The invariant of the cache *)

Lemma bytes_of_app (c1 c2 : LRU.t) :
  bytes_of (c1 ++ c2) = (bytes_of c1 + bytes_of c2)%N.
Proof. induction c1 as [| kv c1 IH]; simpl; [done |]. rewrite IH. lia. Qed.

Lemma bytes_of_drop (n : nat) (c : LRU.t) : (bytes_of (drop n c) <= bytes_of c)%N.
Proof.
  revert n. induction c as [| kv c IH]; intros [| n]; simpl; try lia.
  specialize (IH n). lia.
Qed.

Lemma bytes_of_remove (k : pystr) (c : LRU.t) :
  (bytes_of (LRU.remove k c) <= bytes_of c)%N.
Proof.
  induction c as [| kv c IH]; simpl; [lia |].
  destruct (negb (LRU.has_key k kv)); simpl; lia.
Qed.

Lemma bytes_of_remove_found (k : pystr) (v : json) (c : LRU.t) :
  assoc k c = Some v ->
  (bytes_of (LRU.remove k c) + json_dumps_len v <= bytes_of c)%N.
Proof.
  induction c as [| [k' x] c IH]; simpl; [done |].
  unfold LRU.has_key. simpl.
  destruct (pystr_eqb k k') eqn:E; simpl.
  - intros [= ->]. pose proof (bytes_of_remove k c). lia.
  - intros H. specialize (IH H). lia.
Qed.

Lemma keys_remove (k : pystr) (c : LRU.t) :
  forall k', k' ∈ map fst (LRU.remove k c) <-> k' ∈ map fst c /\ k' <> k.
Proof.
  intros k'. induction c as [| [k0 x] c IH]; simpl.
  - split; [by intros H%elem_of_nil | by intros [H%elem_of_nil _]].
  - unfold LRU.has_key. simpl. destruct (pystr_eqb k k0) eqn:E; simpl.
    + apply pystr_eqb_true in E as <-. rewrite IH, elem_of_cons.
      split; [intros [H1 H2]; by split; [right |] |].
      intros [[-> | H1] H2]; [done | by split].
    + apply pystr_eqb_false in E. rewrite !elem_of_cons, IH.
      split.
      * intros [-> | [H1 H2]]; [split; [by left | congruence] | by split; [right |]].
      * intros [[-> | H1] H2]; [by left | right; by split].
Qed.

Lemma remove_nodup (k : pystr) (c : LRU.t) :
  NoDup (map fst c) -> NoDup (map fst (LRU.remove k c)).
Proof.
  induction c as [| [k0 x] c IH]; simpl; [done |].
  intros [Hnotin Hnd]%NoDup_cons. unfold LRU.has_key. simpl.
  destruct (pystr_eqb k k0); simpl; [by apply IH |].
  apply NoDup_cons. split; [| by apply IH].
  intros Hin. apply keys_remove in Hin as [Hin _]. done.
Qed.

Lemma remove_length (k : pystr) (c : LRU.t) :
  (length (LRU.remove k c) <= length c)%nat.
Proof.
  induction c as [| kv c IH]; simpl; [lia |].
  destruct (negb (LRU.has_key k kv)); simpl; lia.
Qed.

Lemma remove_length_found (k : pystr) (v : json) (c : LRU.t) :
  assoc k c = Some v -> (length (LRU.remove k c) < length c)%nat.
Proof.
  induction c as [| [k' x] c IH]; simpl; [done |].
  unfold LRU.has_key. simpl. destruct (pystr_eqb k k'); simpl.
  - intros _. pose proof (remove_length k c). lia.
  - intros H. specialize (IH H). lia.
Qed.

Lemma assoc_none_keys (k : pystr) (c : LRU.t) :
  assoc k c = None <-> k ∉ map fst c.
Proof.
  induction c as [| [k' x] c IH]; simpl.
  - split; [intros _; apply not_elem_of_nil | done].
  - rewrite not_elem_of_cons. destruct (pystr_eqb k k') eqn:E.
    + apply pystr_eqb_true in E. split; [done | by intros [H _]].
    + apply pystr_eqb_false in E. rewrite IH. split; [by split | by intros [_ H]].
Qed.

Lemma keys_drop (n : nat) (c : LRU.t) (k : pystr) :
  k ∈ map fst (drop n c) -> k ∈ map fst c.
Proof.
  rewrite !list_elem_of_fmap. intros ([k' x] & -> & Hin).
  exists (k', x). split; [done |]. by eapply subseteq_drop.
Qed.

Lemma drop_nodup (n : nat) (c : LRU.t) :
  NoDup (map fst c) -> NoDup (map fst (drop n c)).
Proof.
  revert n. induction c as [| kv c IH]; intros [| n]; simpl; try done.
  intros [_ Hnd]%NoDup_cons. by apply IH.
Qed.

Lemma nodup_snoc (c : LRU.t) (k : pystr) (v : json) :
  NoDup (map fst c) -> k ∉ map fst c -> NoDup (map fst (c ++ [(k, v)])).
Proof.
  intros Hnd Hk. rewrite map_app. simpl. apply NoDup_app.
  split; [done |]. split.
  - intros k' Hin [-> | H%elem_of_nil]%elem_of_cons; done.
  - apply NoDup_singleton.
Qed.

Lemma setitem_ok (k : pystr) (v : json) (c : LRU.t) :
  NoDup (map fst c) -> (length c <= LRU.maxsize)%nat ->
  NoDup (map fst (LRU.setitem k v c))
  /\ (length (LRU.setitem k v c) <= LRU.maxsize)%nat
  /\ (bytes_of (LRU.setitem k v c) <= bytes_of c + json_dumps_len v)%N.
Proof.
  intros Hnd Hlen. unfold LRU.setitem. rewrite assoc_contains.
  destruct (assoc k c) as [old |] eqn:E.
  - split; [| split].
    + apply nodup_snoc; [by apply remove_nodup |].
      intros Hin. apply keys_remove in Hin as [_ Hne]. done.
    + rewrite length_app. simpl. pose proof (remove_length_found _ _ _ E). lia.
    + rewrite bytes_of_app. simpl. pose proof (bytes_of_remove k c). lia.
  - split; [| split].
    + apply nodup_snoc; [by apply drop_nodup |].
      intros Hin%keys_drop. by apply assoc_none_keys in E.
    + rewrite length_app, length_drop. simpl. unfold LRU.maxsize in *. lia.
    + rewrite bytes_of_app. simpl.
      pose proof (bytes_of_drop (length c + 1 - LRU.maxsize) c). lia.
Qed.

Lemma insert_entry_ok (self : ChatGPTClient) (k : pystr) (v : json) :
  cache_ok self -> fits self (json_dumps_len v) = true ->
  cache_ok (insert_entry self k v (json_dumps_len v)).
Proof.
  intros (Hnd & Hlen & Hres & Hcnt) Hfit. unfold fits in Hfit.
  apply N.leb_le in Hfit.
  destruct (setitem_ok k v (cache self) Hnd Hlen) as (Hnd' & Hlen' & Hb).
  unfold cache_ok, resident_bytes in *. simpl.
  fold (bytes_of (LRU.setitem k v (cache self))). fold (bytes_of (cache self)) in Hres.
  repeat split; try done; lia.
Qed.

Lemma load_items_ok (items : list (pystr * json)) :
  forall self, cache_ok self -> cache_ok (fst (load_items items self)).
Proof.
  induction items as [| [k v] items IH]; intros self Hok; simpl; [done |].
  destruct (fits self (json_dumps_len v)) eqn:Hfit; [| done].
  specialize (IH _ (insert_entry_ok self k v Hok Hfit)).
  by destruct (load_items items _).
Qed.

Lemma fresh_ok : cache_ok {| cache := []; current_cache_size_bytes := 0 |}.
Proof.
  unfold cache_ok, resident_bytes. simpl. repeat split; try lia. apply NoDup_nil_2.
Qed.

Lemma init_ok (file : res json) : cache_ok (fst (init file)).
Proof.
  unfold init, load_cache. pose proof fresh_ok.
  destruct file as [[] | []]; simpl; try done. by apply load_items_ok.
Qed.

Lemma attempts_ok (retries : Z) (k : pystr) (post : nat -> res json) (fuel : nat) :
  forall (attempt : nat) (self : ChatGPTClient),
  cache_ok self ->
  match attempts fuel attempt retries self k post with
  | Ok (self', _, _) => cache_ok self'
  | Raise _ => True
  end.
Proof.
  induction fuel as [| fuel IH]; intros attempt self Hok; simpl; [done |].
  destruct (post attempt) as [v | e].
  - unfold store_response.
    destruct (fits self (json_dumps_len v)) eqn:Hfit; simpl; [| done].
    by apply insert_entry_ok.
  - specialize (IH (S attempt) self Hok).
    destruct (is_rate_limited e).
    + by destruct (attempts fuel (S attempt) retries self k post) as [[[s r] evs] |].
    + destruct (is_client_error e); [| done].
      destruct (Z.of_nat attempt =? retries - 1); [done |].
      by destruct (attempts fuel (S attempt) retries self k post) as [[[s r] evs] |].
Qed.

Lemma query_ok (self : ChatGPTClient) (text : pystr) (retries : Z)
    (post : nat -> res json) :
  cache_ok self ->
  match query self text retries post with
  | Ok (self', _, _) => cache_ok self'
  | Raise _ => True
  end.
Proof.
  intros Hok. unfold query, LRU.getitem.
  destruct (assoc (cache_key_of text) (cache self)) as [v |] eqn:E.
  - destruct Hok as (Hnd & Hlen & Hres & Hcnt).
    unfold cache_ok, resident_bytes in *. simpl.
    fold (bytes_of (cache self)) in Hres.
    fold (bytes_of (LRU.remove (cache_key_of text) (cache self)
                    ++ [(cache_key_of text, v)])).
    repeat split; try done.
    + apply nodup_snoc; [by apply remove_nodup |].
      intros Hin. apply keys_remove in Hin as [_ Hne]. done.
    + rewrite length_app. simpl. pose proof (remove_length_found _ _ _ E). lia.
    + rewrite bytes_of_app. simpl. pose proof (bytes_of_remove_found _ _ _ E). lia.
  - by apply attempts_ok.
Qed.

Lemma run_ok (calls : list call) :
  forall self, cache_ok self -> cache_ok (fst (run self calls)).
Proof.
  induction calls as [| c calls IH]; intros self Hok; simpl; [done |].
  pose proof (query_ok self (call_text c) (call_retries c) (call_post c) Hok) as Hq.
  destruct (query self _ _ _) as [[[self' r] evs] |]; [| by apply IH].
  specialize (IH self' Hq). by destruct (run self' calls).
Qed.

(** X1. Whatever cache file a process starts from and whatever queries it
    then makes, its client keeps distinct keys, at most 1000 entries, and
    resident bytes at most the counter, which is at most 10 MB. *)
Theorem cache_stays_within_bounds (file : res json) (calls : list call) :
  let self := fst (run (fst (init file)) calls) in
  NoDup (map fst (cache self))
  /\ (length (cache self) <= 1000)%nat
  /\ (resident_bytes self <= current_cache_size_bytes self)%N
  /\ (current_cache_size_bytes self <= 10 * 1024 * 1024)%N.
Proof. apply run_ok, init_ok. Qed.

(** ** Loading the cache file *)

(** X2. [load_cache] never raises.  Of a cache file that is a JSON object it
    inserts the entries in their order up to the first one that does not fit
    under the byte bound, and stops there: the entries after it are not
    loaded, whatever their size.  The counter grows by the bytes of the
    loaded entries.  A missing file, an unreadable one or one that is not an
    object leaves the client as it is. *)
Theorem load_cache_loads_a_prefix (self : ChatGPTClient) (file : res json) :
  match file with
  | Ok (JObj items) =>
    exists n,
      (n <= length items)%nat
      /\ cache (fst (load_cache self file)) = insert_all (take n items) (cache self)
      /\ current_cache_size_bytes (fst (load_cache self file))
         = (current_cache_size_bytes self + bytes_of (take n items))%N
      /\ match items !! n with
         | Some (k, v) =>
           snd (load_cache self file)
           = map (fun kv => EvInsert (fst kv) (json_dumps_len (snd kv))) (take n items)
             ++ [EvLoadStopped k]
           /\ (max_cache_size_bytes
               < current_cache_size_bytes (fst (load_cache self file))
                 + json_dumps_len v)%N
         | None =>
           snd (load_cache self file)
           = map (fun kv => EvInsert (fst kv) (json_dumps_len (snd kv))) items
         end
  | _ => fst (load_cache self file) = self
  end.
Proof.
  destruct file as [[| | | | | | items] | e]; try done; [| by destruct e].
  simpl. revert self. induction items as [| [k v] items IH]; intros self.
  - exists 0%nat. simpl. repeat split; [lia | by rewrite N.add_0_r].
  - simpl. destruct (fits self (json_dumps_len v)) eqn:Hfit.
    + destruct (IH (insert_entry self k v (json_dumps_len v)))
        as (n & Hn & Hc & Hb & Hev).
      destruct (load_items items _) as [self' evs] eqn:El. simpl in *.
      exists (S n). simpl. split; [lia |]. split; [exact Hc |].
      split; [rewrite Hb; lia |].
      destruct (items !! n) as [[k' v'] |].
      * destruct Hev as [-> Hgt]. by split.
      * by rewrite Hev.
    + exists 0%nat. simpl. split; [lia |]. split; [done |].
      split; [by rewrite N.add_0_r |]. split; [done |].
      unfold fits in Hfit. apply N.leb_gt in Hfit. lia.
Qed.

(** ** Hits and misses *)

Lemma assoc_remove_ne (k k' : pystr) (c : LRU.t) :
  k' <> k -> assoc k' (LRU.remove k c) = assoc k' c.
Proof.
  intros Hne. induction c as [| [k0 x] c IH]; simpl; [done |].
  unfold LRU.has_key. simpl. destruct (pystr_eqb k k0) eqn:E; simpl.
  - apply pystr_eqb_true in E as <-.
    by rewrite (proj2 (pystr_eqb_false k' k) Hne).
  - by rewrite IH.
Qed.

(** X3. A query whose key is in the cache makes no request: whatever the
    number of attempts and whatever the endpoint would answer, it returns the
    cached value, leaves the counter and every lookup of the cache as they
    were, and makes the entry the most recently used. *)
Theorem cache_hit_makes_no_request (self : ChatGPTClient) (text : pystr) (v : json)
    (retries : Z) (post : nat -> res json) :
  cache_get self (cache_key_of text) = Some v ->
  exists self',
    query self text retries post = Ok (self', v, [EvCacheHit (cache_key_of text)])
    /\ current_cache_size_bytes self' = current_cache_size_bytes self
    /\ (forall k, cache_get self' k = cache_get self k)
    /\ last (cache self') = Some (cache_key_of text, v).
Proof.
  unfold cache_get, query, LRU.getitem. intros Hhit. rewrite Hhit.
  eexists. split; [reflexivity |]. simpl. split; [done |]. split.
  - intros k. rewrite assoc_app.
    destruct (decide (k = cache_key_of text)) as [-> | Hne].
    + rewrite assoc_remove. simpl. by rewrite pystr_eqb_refl.
    + rewrite assoc_remove_ne by done. simpl.
      rewrite (proj2 (pystr_eqb_false _ _) Hne). by destruct (assoc k (cache self)).
  - by rewrite last_snoc.
Qed.

(** ** The retry loop, attempt by attempt *)

Lemma attempts_ext (retries : Z) (k : pystr) (post post' : nat -> res json)
    (fuel : nat) :
  forall (attempt : nat) (self : ChatGPTClient),
  (forall a, (attempt <= a < attempt + fuel)%nat -> post a = post' a) ->
  attempts fuel attempt retries self k post = attempts fuel attempt retries self k post'.
Proof.
  induction fuel as [| fuel IH]; intros attempt self H; simpl; [done |].
  rewrite <- (H attempt) by lia.
  rewrite (IH (S attempt) self) by (intros a Ha; apply H; lia). done.
Qed.

(** X4. A query makes at most [retries] requests: its outcome depends on the
    endpoint only through the attempts below [retries], and with [retries]
    zero or negative a query that misses the cache returns [None] at once,
    without a request or a wait. *)
Theorem query_stays_within_budget (self : ChatGPTClient) (text : pystr) (retries : Z)
    (post post' : nat -> res json) :
  (forall a, (a < Z.to_nat retries)%nat -> post a = post' a) ->
  query self text retries post = query self text retries post'
  /\ (retries <= 0 -> cache_get self (cache_key_of text) = None ->
      query self text retries post = Ok (self, JNull, [])).
Proof.
  intros H. split.
  - unfold query. destruct (LRU.getitem _ _) as [[v c] |]; [done |].
    apply attempts_ext. intros a Ha. apply H. lia.
  - intros Hle Hmiss. unfold query, cache_get in *.
    rewrite (getitem_miss _ _ Hmiss).
    replace (Z.to_nat retries) with 0%nat by lia. done.
Qed.

Lemma slept_app (l1 l2 : list event) : slept (l1 ++ l2) = slept l1 + slept l2.
Proof.
  induction l1 as [| ev l1 IH]; simpl; [done |].
  unfold slept in *. simpl. destruct ev; rewrite ?IH; lia.
Qed.

Lemma attempts_rate_limited (retries : Z) (k : pystr) (post : nat -> res json)
    (fuel : nat) :
  forall (attempt : nat) (self : ChatGPTClient),
  (forall a, (attempt <= a < attempt + fuel)%nat ->
     post a = Raise (ClientResponseError 429)) ->
  attempts fuel attempt retries self k post
  = Ok (self, JNull, flat_map rate_limited_step (seq attempt fuel)).
Proof.
  induction fuel as [| fuel IH]; intros attempt self H; simpl; [done |].
  rewrite (H attempt) by lia. simpl.
  rewrite IH by (intros a Ha; apply H; lia). done.
Qed.

Lemma slept_rate_limited (n attempt : nat) :
  slept (flat_map rate_limited_step (seq attempt n))
  = 10 * 2 ^ Z.of_nat attempt * (2 ^ Z.of_nat n - 1).
Proof.
  revert attempt. induction n as [| n IH]; intros attempt.
  - simpl. lia.
  - cbn [seq flat_map]. rewrite slept_app, IH.
    unfold rate_limited_step, slept. simpl fold_right.
    rewrite !Nat2Z.inj_succ, !Z.pow_succ_r by lia. lia.
Qed.

(** X5. When the endpoint answers every attempt with status 429, a query
    that misses the cache makes all its attempts, waits [10 * 2^a] seconds
    after attempt [a], the last one included, and returns [None] with the
    client unchanged: [10 * (2^retries - 1)] seconds in all, 70 for the
    default of 3 attempts. *)
Theorem rate_limited_query_waits (self : ChatGPTClient) (text : pystr) (retries : Z)
    (post : nat -> res json) :
  cache_get self (cache_key_of text) = None ->
  0 <= retries ->
  (forall a, (a < Z.to_nat retries)%nat -> post a = Raise (ClientResponseError 429)) ->
  exists evs,
    query self text retries post = Ok (self, JNull, evs)
    /\ evs = flat_map rate_limited_step (seq 0 (Z.to_nat retries))
    /\ slept evs = 10 * (2 ^ retries - 1).
Proof.
  intros Hmiss Hpos H. unfold query, cache_get in *.
  rewrite (getitem_miss _ _ Hmiss).
  rewrite attempts_rate_limited by (intros a Ha; apply H; lia).
  eexists. split; [reflexivity |]. split; [done |].
  rewrite slept_rate_limited. rewrite Z2Nat.id by done. simpl. lia.
Qed.

Lemma attempts_failing (retries : Z) (k : pystr) (post : nat -> res json)
    (err : nat -> exn) (fuel : nat) :
  forall (attempt : nat) (self : ChatGPTClient),
  Z.of_nat (attempt + fuel)%nat = retries - 1 ->
  (forall a, (attempt <= a <= attempt + fuel)%nat ->
     post a = Raise (err a) /\ is_client_error (err a) = true
     /\ is_rate_limited (err a) = false) ->
  attempts (S fuel) attempt retries self k post
  = Ok (self, JNull,
        flat_map (failed_step err) (seq attempt fuel)
        ++ [EvAttemptFailed (attempt + fuel)%nat (err (attempt + fuel)%nat); EvGaveUp]).
Proof.
  induction fuel as [| fuel IH]; intros attempt self Hlast H.
  - destruct (H attempt) as (Hp & Hc & Hr); [lia |].
    cbn [attempts]. rewrite Hp, Hr, Hc.
    replace (Z.of_nat attempt =? retries - 1) with true
      by (symmetry; apply Z.eqb_eq; lia).
    simpl. by rewrite Nat.add_0_r.
  - destruct (H attempt) as (Hp & Hc & Hr); [lia |].
    assert (attempts (S fuel) (S attempt) retries self k post
            = Ok (self, JNull,
                  flat_map (failed_step err) (seq (S attempt) fuel)
                  ++ [EvAttemptFailed (S attempt + fuel)%nat
                        (err (S attempt + fuel)%nat); EvGaveUp])) as Hrec.
    { apply IH; [lia |]. intros a Ha. apply H. lia. }
    change (attempts (S (S fuel)) attempt retries self k post)
      with (match post attempt with
            | Ok response_json =>
              let '(self', evs) := store_response self k response_json in
              Ok (self', response_json, evs ++ [EvSleep 1])
            | Raise e =>
              if is_rate_limited e then
                bind (attempts (S fuel) (S attempt) retries self k post)
                  (fun '(self', r, evs) =>
                     Ok (self', r,
                         EvRateLimited attempt
                         :: EvSleep (2 ^ Z.of_nat attempt * 10) :: evs))
              else if is_client_error e then
                if Z.of_nat attempt =? retries - 1
                then Ok (self, JNull, [EvAttemptFailed attempt e; EvGaveUp])
                else
                  bind (attempts (S fuel) (S attempt) retries self k post)
                    (fun '(self', r, evs) =>
                       Ok (self', r,
                           EvAttemptFailed attempt e
                           :: EvSleep (2 ^ Z.of_nat attempt) :: evs))
              else Raise e
            end).
    rewrite Hp, Hr, Hc, Hrec.
    replace (Z.of_nat attempt =? retries - 1) with false
      by (symmetry; apply Z.eqb_neq; lia).
    cbn [bind seq flat_map]. unfold failed_step at 1. simpl.
    by replace (S (attempt + fuel))%nat with (attempt + S fuel)%nat by lia.
Qed.

Lemma slept_failed (err : nat -> exn) (n attempt : nat) :
  slept (flat_map (failed_step err) (seq attempt n))
  = 2 ^ Z.of_nat attempt * (2 ^ Z.of_nat n - 1).
Proof.
  revert attempt. induction n as [| n IH]; intros attempt.
  - simpl. lia.
  - cbn [seq flat_map]. rewrite slept_app, IH.
    unfold failed_step, slept. simpl fold_right.
    rewrite !Nat2Z.inj_succ, !Z.pow_succ_r by lia. lia.
Qed.

(** X6. When every attempt fails with an HTTP error other than 429, a
    transport error or a timeout, a query that misses the cache makes all
    its attempts, waits [2^a] seconds after attempt [a] except after the last
    one, where it gives up at once, and returns [None] with the client
    unchanged: [2^(retries-1) - 1] seconds in all, 3 for the default of 3
    attempts. *)
Theorem failing_query_gives_up (self : ChatGPTClient) (text : pystr) (retries : Z)
    (post : nat -> res json) (err : nat -> exn) :
  cache_get self (cache_key_of text) = None ->
  1 <= retries ->
  (forall a, (a < Z.to_nat retries)%nat ->
     post a = Raise (err a) /\ is_client_error (err a) = true
     /\ is_rate_limited (err a) = false) ->
  exists evs,
    query self text retries post = Ok (self, JNull, evs)
    /\ evs = flat_map (failed_step err) (seq 0 (Z.to_nat retries - 1)%nat)
             ++ [EvAttemptFailed (Z.to_nat retries - 1)%nat
                   (err (Z.to_nat retries - 1)%nat);
                 EvGaveUp]
    /\ slept evs = 2 ^ (retries - 1) - 1.
Proof.
  intros Hmiss Hpos H. unfold query, cache_get in *.
  rewrite (getitem_miss _ _ Hmiss).
  destruct (Z.to_nat retries) as [| fuel] eqn:Hfuel; [lia |].
  rewrite (attempts_failing retries _ post err fuel 0 self)
    by (try (intros a Ha; apply H); lia).
  replace (S fuel - 1)%nat with fuel by lia. simpl plus.
  eexists. split; [reflexivity |]. split; [done |].
  rewrite slept_app, slept_failed.
  replace (retries - 1) with (Z.of_nat fuel) by lia.
  unfold slept. simpl. lia.
Qed.

Lemma attempts_after_failures (retries : Z) (k : pystr) (post : nat -> res json)
    (v : json) (n : nat) :
  forall (fuel attempt : nat) (self : ChatGPTClient),
  (n < fuel)%nat ->
  Z.of_nat (attempt + fuel)%nat = retries ->
  (forall a, (attempt <= a < attempt + n)%nat ->
     exists e, post a = Raise e /\ is_client_error e = true) ->
  post (attempt + n)%nat = Ok v ->
  exists evs,
    attempts fuel attempt retries self k post
    = Ok (fst (store_response self k v), v, evs).
Proof.
  induction n as [| n IH]; intros fuel attempt self Hfuel Hbudget Hfail Hok.
  - destruct fuel as [| fuel]; [lia |]. simpl.
    rewrite Nat.add_0_r in Hok. rewrite Hok.
    destruct (store_response self k v). by eexists.
  - destruct fuel as [| fuel]; [lia |]. simpl.
    destruct (Hfail attempt) as (e & He & Hc); [lia |]. rewrite He, Hc.
    destruct (IH fuel (S attempt) self) as [evs Hevs].
    + lia.
    + lia.
    + intros a Ha. apply Hfail. lia.
    + by replace (S attempt + n)%nat with (attempt + S n)%nat by lia.
    + rewrite Hevs. cbn [bind].
      destruct (is_rate_limited e); [by eexists |].
      destruct (Z.of_nat attempt =? retries - 1) eqn:E; [| by eexists].
      apply Z.eqb_eq in E. lia.
Qed.

(** X7. When the first attempts fail with HTTP errors, transport errors or
    timeouts and a later attempt within the budget succeeds, the query
    returns the response of that attempt and hands it to the cache exactly
    as a first-attempt success would. *)
Theorem query_succeeds_after_failures (self : ChatGPTClient) (text : pystr)
    (retries : Z) (post : nat -> res json) (v : json) (n : nat) :
  cache_get self (cache_key_of text) = None ->
  Z.of_nat n < retries ->
  (forall a, (a < n)%nat -> exists e, post a = Raise e /\ is_client_error e = true) ->
  post n = Ok v ->
  exists evs,
    query self text retries post
    = Ok (fst (store_response self (cache_key_of text) v), v, evs).
Proof.
  intros Hmiss Hn Hfail Hok. unfold query, cache_get in *.
  rewrite (getitem_miss _ _ Hmiss).
  apply (attempts_after_failures retries _ post v n); try done; try lia.
  intros a Ha. apply Hfail. lia.
Qed.

(** ** The adjuster on any text *)

Lemma adjust_step_at (text : pystr) (m : gmap pystr Z) (crit : criterion) :
  targeted (name crit) ->
  adjust_step (str_lower text) m crit !! name crit
  = Some (let s := default 0 (m !! name crit) in
          if has_signal text (name crit) then Z.min (max_score crit) (s + 1)
          else Z.max 0 (s - 1)).
Proof.
  intros Ht. unfold adjust_step, has_signal.
  destruct (pystr_eqb (name crit) novelty_name) eqn:E1.
  - destruct (any_keyword keywords (str_lower text)); by rewrite lookup_insert_eq.
  - destruct Ht as [Ht | Ht].
    + apply pystr_eqb_false in E1. done.
    + rewrite Ht, pystr_eqb_refl. rewrite <- Ht.
      destruct (any_keyword structure_keywords (str_lower text));
        by rewrite lookup_insert_eq.
Qed.

Lemma adjust_fold_at (text : pystr) (criteria : list criterion) :
  forall (m : gmap pystr Z) (c : criterion),
  NoDup (map name criteria) -> c ∈ criteria -> targeted (name c) ->
  fold_left (adjust_step (str_lower text)) criteria m !! name c
  = Some (let s := default 0 (m !! name c) in
          if has_signal text (name c) then Z.min (max_score c) (s + 1)
          else Z.max 0 (s - 1)).
Proof.
  induction criteria as [| c0 l IH]; intros m c Hnd Hin Ht; simpl.
  - by apply elem_of_nil in Hin.
  - simpl in Hnd. apply NoDup_cons in Hnd as [Hnotin Hnd].
    apply elem_of_cons in Hin as [-> | Hin].
    + rewrite adjust_fold_other.
      * by apply adjust_step_at.
      * intros c' Hc'. left. intros Heq. apply Hnotin.
        rewrite <- Heq. apply list_elem_of_fmap. by exists c'.
    + rewrite IH by done.
      rewrite adjust_step_other; [done |].
      left. intros Heq. apply Hnotin. rewrite Heq.
      apply list_elem_of_fmap. by exists c.
Qed.

(** X8. On a text that has one of the keywords of a rule, and a criteria
    list with distinct names, [adjust_scores_with_rules] takes the score of
    the criterion of that rule up by 1, capped at its [max_score]: a score at
    the maximum stays there, and a second run adds a second point under the
    same cap.  A targeted criterion with no score yet counts as 0. *)
Theorem adjust_signal_increments (text : pystr) (scores0 : gmap pystr Z)
    (criteria : list criterion) (c : criterion) :
  NoDup (map name criteria) ->
  c ∈ criteria ->
  targeted (name c) ->
  has_signal text (name c) = true ->
  let s := default 0 (scores0 !! name c) in
  let once := adjust_scores_with_rules text scores0 criteria in
  let twice := adjust_scores_with_rules text once criteria in
  once !! name c = Some (Z.min (max_score c) (s + 1))
  /\ twice !! name c = Some (Z.min (max_score c) (s + 2))
  /\ (s = max_score c -> once !! name c = Some s).
Proof.
  intros Hnd Hin Ht Hs s once twice.
  assert (once !! name c = Some (Z.min (max_score c) (s + 1))) as H1.
  { unfold once, adjust_scores_with_rules. rewrite adjust_fold_at by done.
    cbv zeta. by rewrite Hs. }
  split; [exact H1 |]. split.
  - unfold twice, adjust_scores_with_rules. rewrite adjust_fold_at by done.
    cbv zeta. rewrite Hs. fold once. rewrite H1. simpl. f_equal. lia.
  - intros Heq. rewrite H1. f_equal. lia.
Qed.

(** X9. Whatever the text, with distinct criterion names
    [adjust_scores_with_rules] moves the score of a criterion by at most one
    point and keeps a score of [[0, max_score]] within [[0, max_score]];
    the score of a criterion that is not one of the two targeted ones, and
    every entry no criterion names, stays as it was. *)
Theorem adjust_stays_in_range (text : pystr) (scores0 : gmap pystr Z)
    (criteria : list criterion) :
  NoDup (map name criteria) ->
  let adjusted := adjust_scores_with_rules text scores0 criteria in
  (forall c s, c ∈ criteria -> scores0 !! name c = Some s ->
     0 <= s <= max_score c ->
     exists s', adjusted !! name c = Some s'
                /\ 0 <= s' <= max_score c /\ s - 1 <= s' <= s + 1)
  /\ (forall k, (forall c, c ∈ criteria -> name c <> k \/ ~ targeted k) ->
        adjusted !! k = scores0 !! k).
Proof.
  intros Hnd adjusted. split.
  - intros c s Hin Hs Hrange.
    destruct (decide (targeted (name c))) as [Ht | Hnt].
    + exists (if has_signal text (name c) then Z.min (max_score c) (s + 1)
              else Z.max 0 (s - 1)).
      split.
      * unfold adjusted, adjust_scores_with_rules. rewrite adjust_fold_at by done.
        cbv zeta. by rewrite Hs.
      * destruct (has_signal text (name c)); lia.
    + exists s. split; [| lia].
      unfold adjusted, adjust_scores_with_rules.
      rewrite adjust_fold_other; [done |]. intros c' _. by right.
  - intros k Hk. unfold adjusted, adjust_scores_with_rules.
    by apply adjust_fold_other.
Qed.

(** ** The totals of main.py *)

Lemma total_score_from (scores : gmap pystr Z) (criteria : list criterion) (a : Z) :
  fold_left (fun acc c => acc + default 0 (scores !! name c)) criteria a
  = a + total_score scores criteria.
Proof.
  unfold total_score. revert a.
  induction criteria as [| c l IH]; intros a; simpl; [lia |].
  rewrite IH, (IH (0 + _)). lia.
Qed.

Lemma sum_max_scores_from (criteria : list criterion) (a : Z) :
  fold_left (fun acc c => acc + max_score c) criteria a = a + sum_max_scores criteria.
Proof.
  unfold sum_max_scores. revert a.
  induction criteria as [| c l IH]; intros a; simpl; [lia |].
  rewrite IH, (IH (0 + _)). lia.
Qed.

(** X10. When the score of every criterion is in [[0, max_score]], an absent
    score counting as 0, the total of a work that [log_evaluations],
    [create_excel_file] and [process_files] compute lies between 0 and the
    maximum shown in the header of the total column, the sum of the maximum
    scores. *)
Theorem total_within_rubric_maximum (scores : gmap pystr Z)
    (criteria : list criterion) :
  (forall c, c ∈ criteria -> 0 <= default 0 (scores !! name c) <= max_score c) ->
  0 <= total_score scores criteria <= sum_max_scores criteria.
Proof.
  induction criteria as [| c l IH]; intros H.
  - done.
  - unfold total_score, sum_max_scores. simpl.
    rewrite total_score_from, sum_max_scores_from.
    assert (0 <= default 0 (scores !! name c) <= max_score c) by (apply H; by left).
    assert (0 <= total_score scores l <= sum_max_scores l).
    { apply IH. intros c' Hc'. apply H. by right. }
    lia.
Qed.

Lemma distribution_fold (totals : list Z) :
  forall (d : gmap Z nat) (t : Z),
  default 0%nat (fold_left (fun d total =>
                              <[total := (default 0 (d !! total) + 1)%nat]> d)
                           totals d !! t)
  = (works_with_total t totals + default 0 (d !! t))%nat
  /\ (is_Some (fold_left (fun d total =>
                            <[total := (default 0 (d !! total) + 1)%nat]> d)
                         totals d !! t)
      <-> t ∈ totals \/ is_Some (d !! t)).
Proof.
  unfold works_with_total.
  induction totals as [| x l IH]; intros d t; simpl.
  - split; [done |]. split; [by right |]. intros [H | H]; [| done].
    by apply elem_of_nil in H.
  - destruct (IH (<[x := (default 0 (d !! x) + 1)%nat]> d) t) as [Hc Hs].
    rewrite Hc, Hs. destruct (Z.eqb_spec t x) as [-> | Hne].
    + rewrite lookup_insert_eq. simpl. split; [lia |].
      split; [intros _; left; by left | intros _; by right].
    + rewrite lookup_insert_ne by done. split; [done |].
      rewrite elem_of_cons. split.
      * intros [H | H]; [left; by right | by right].
      * intros [[H | H] | H]; [done | by left | by right].
Qed.

(** X11. The score distribution [process_files] builds for the chart holds,
    under each total, the number of works that reached it, which is at least
    1, and holds nothing under a total no work reached. *)
Theorem score_distribution_counts (totals : list Z) (t : Z) :
  match score_distribution totals !! t with
  | Some count => (t ∈ totals) /\ count = works_with_total t totals /\ (1 <= count)%nat
  | None => (t ∉ totals) /\ works_with_total t totals = 0%nat
  end.
Proof.
  unfold score_distribution.
  destruct (distribution_fold totals ∅ t) as [Hc Hs].
  rewrite lookup_empty in Hc, Hs. simpl in Hc.
  assert (forall l : list Z, t ∈ l -> (1 <= works_with_total t l)%nat) as Hpos.
  { unfold works_with_total. induction l as [| x l IH]; intros Hin.
    - by apply elem_of_nil in Hin.
    - simpl. destruct (Z.eqb_spec t x) as [-> | Hne]; simpl; [lia |].
      apply IH. by apply elem_of_cons in Hin as [? | ?]. }
  destruct (fold_left _ totals ∅ !! t) as [count |] eqn:E.
  - simpl in Hc. assert (t ∈ totals) as Hin.
    { destruct Hs as [Hs _]. destruct Hs as [H | [? H]]; [by eexists | done | done]. }
    split; [done |]. split; [lia |]. rewrite Hc, Nat.add_0_r. by apply Hpos.
  - simpl in Hc. split; [| lia]. intros Hin.
    destruct Hs as [_ Hs]. destruct Hs as [? H]; [by left | done].
Qed.

(** ** Saving and loading the cache *)

Lemma load_items_all (items : list (pystr * json)) :
  forall self,
  NoDup (map fst (cache self ++ items)) ->
  (length (cache self ++ items) <= LRU.maxsize)%nat ->
  (current_cache_size_bytes self + bytes_of items <= max_cache_size_bytes)%N ->
  fst (load_items items self)
  = {| cache := cache self ++ items;
       current_cache_size_bytes := current_cache_size_bytes self + bytes_of items |}.
Proof.
  induction items as [| [k v] items IH]; intros [c n] Hnd Hlen Hb; simpl in *.
  - by rewrite app_nil_r, N.add_0_r.
  - unfold fits. simpl.
    replace (n + json_dumps_len v <=? max_cache_size_bytes)%N with true
      by (symmetry; apply N.leb_le; lia).
    assert (LRU.setitem k v c = c ++ [(k, v)]) as Hset.
    { unfold LRU.setitem. rewrite assoc_contains.
      assert (assoc k c = None) as ->.
      { apply assoc_none_keys. rewrite map_app in Hnd.
        apply NoDup_app in Hnd as (_ & Hdis & _). intros Hin.
        apply (Hdis k Hin). simpl. by left. }
      rewrite length_app in Hlen. simpl in Hlen. unfold LRU.maxsize in *.
      by replace (length c + 1 - 1000)%nat with 0%nat by lia. }
    unfold insert_entry. simpl. rewrite Hset.
    specialize (IH {| cache := c ++ [(k, v)];
                      current_cache_size_bytes := n + json_dumps_len v |}).
    simpl in IH. rewrite <- app_assoc in IH. simpl in IH.
    destruct (load_items items _) as [self' evs]. simpl in *.
    rewrite IH; [f_equal; lia | done | done | lia].
Qed.

Lemma assoc_some_elem (k : pystr) (v : json) (l : list (pystr * json)) :
  NoDup (map fst l) -> assoc k l = Some v <-> (k, v) ∈ l.
Proof.
  induction l as [| [k' x] l IH]; simpl.
  - intros _. split; [done | by intros H%elem_of_nil].
  - intros [Hnotin Hnd]%NoDup_cons. rewrite elem_of_cons.
    destruct (pystr_eqb k k') eqn:E.
    + apply pystr_eqb_true in E as <-. split.
      * intros [= ->]. by left.
      * intros [[= ->] | Hin]; [done |]. exfalso. apply Hnotin.
        apply list_elem_of_fmap. by exists (k, v).
    + apply pystr_eqb_false in E. rewrite IH by done. split.
      * by right.
      * intros [[= -> ->] | Hin]; done.
Qed.

Lemma assoc_perm (k : pystr) (l l' : list (pystr * json)) :
  NoDup (map fst l) -> l ≡ₚ l' -> assoc k l = assoc k l'.
Proof.
  intros Hnd Hp.
  assert (NoDup (map fst l')) as Hnd' by (by rewrite <- Hp).
  destruct (assoc k l) as [v |] eqn:E.
  - symmetry. apply assoc_some_elem; [done |]. rewrite <- Hp.
    by apply assoc_some_elem.
  - destruct (assoc k l') as [v' |] eqn:E'; [| done].
    apply assoc_some_elem in E'; [| done]. rewrite <- Hp in E'.
    apply assoc_some_elem in E'; [| done]. congruence.
Qed.

Lemma bytes_of_perm (l l' : LRU.t) : l ≡ₚ l' -> bytes_of l = bytes_of l'.
Proof.
  unfold bytes_of.
  induction 1 as [| x l l' _ IH | x y l | l l' l'' _ IH1 _ IH2]; simpl; lia.
Qed.

(** X12. A client started on a cache file that holds the entries of a
    client, in any order, has these entries again: every key gives the value
    it gave, nothing is skipped, and the byte counter starts at the bytes of
    the entries now held, which is at most what the counter had reached. *)
Theorem load_cache_restores_saved (self : ChatGPTClient)
    (items : list (pystr * json)) :
  cache_ok self ->
  items ≡ₚ cache self ->
  let self' := fst (init (Ok (JObj items))) in
  cache self' = items
  /\ (forall k, cache_get self' k = cache_get self k)
  /\ current_cache_size_bytes self' = resident_bytes self
  /\ (current_cache_size_bytes self' <= current_cache_size_bytes self)%N.
Proof.
  intros (Hnd & Hlen & Hres & Hcnt) Hp. cbv zeta. unfold init, load_cache.
  change (bytes_of (cache self) <= current_cache_size_bytes self)%N in Hres.
  rewrite load_items_all; simpl.
  - rewrite (bytes_of_perm _ _ Hp). unfold cache_get, resident_bytes. simpl.
    fold (bytes_of (cache self)). repeat split; try done.
    intros k. symmetry. apply assoc_perm; [done | by symmetry].
  - by rewrite Hp.
  - by rewrite Hp.
  - rewrite (bytes_of_perm _ _ Hp). lia.
Qed.

(** ** The extractor without an answer *)

Lemma attempts_fail_null (retries : Z) (k : pystr) (post : nat -> res json)
    (fuel : nat) :
  forall (attempt : nat) (self : ChatGPTClient),
  (forall a, (attempt <= a < attempt + fuel)%nat ->
     exists e, post a = Raise e /\ is_client_error e = true) ->
  exists evs, attempts fuel attempt retries self k post = Ok (self, JNull, evs).
Proof.
  induction fuel as [| fuel IH]; intros attempt self H; simpl; [by eexists |].
  destruct (H attempt) as (e & -> & Hc); [lia |]. rewrite Hc.
  destruct (IH (S attempt) self) as [evs ->].
  { intros a Ha. apply H. lia. }
  simpl. destruct (is_rate_limited e); [by eexists |].
  destruct (Z.of_nat attempt =? retries - 1); by eexists.
Qed.

Lemma logged_before_account (criteria : list criterion) (r : ExtractionResult)
    (lg : list log_record) (x : log_record) :
  x ∈ snd (account criteria (r, lg ++ [x])).
Proof.
  unfold account. cbn [fst snd]. apply elem_of_app. left.
  apply elem_of_app. right. by apply list_elem_of_singleton.
Qed.

Lemma merge_without_answer (filename : pystr) (criteria : list criterion)
    (response : json) (r : ExtractionResult) (lg : list log_record) :
  ai_parsed response = None ->
  merge_response filename criteria response = Ok (r, lg) ->
  r = fallback_result filename criteria
  /\ (LogNoResponse ∈ lg \/ exists e, LogExtractionError e ∈ lg).
Proof.
  unfold ai_parsed, merge_response. intros Hnone H.
  destruct (has_choices response) as [[] |]; cbn [bind] in H; [| | done].
  - rewrite overlay_cases in H.
    destruct (response_content response) as [content | e].
    + destruct (parse_content content) as [parsed | e]; [done |].
      destruct (is_caught e); [| done]. injection H as <- <-.
      split; [done |]. right. exists e. first [by apply logged_before_account | by left].
    + destruct (is_caught e); [| done]. injection H as <- <-.
      split; [done |]. right. exists e. first [by apply logged_before_account | by left].
  - injection H as <- <-. split; [done |]. left. first [by apply logged_before_account | by left].
Qed.

(** X13. When the cache has no answer for the text and each of the three
    attempts fails with an HTTP error, a transport error or a timeout,
    [extract_metadata_and_scores] does not raise: it returns the rule-based
    result as it stands, the four [Unknown] metadata fields, the fallback
    score of every criterion and the two fixed recommendations, logs that no
    response came, and leaves the client unchanged. *)
Theorem unavailable_ai_gives_fallback (text filename : pystr)
    (criteria : list criterion) (chatgpt_client : ChatGPTClient)
    (post : nat -> res json) :
  cache_get chatgpt_client (cache_key_of text) = None ->
  (forall a, (a < 3)%nat -> exists e, post a = Raise e /\ is_client_error e = true) ->
  exists lg,
    extract_metadata_and_scores text filename criteria chatgpt_client post
    = Ok (chatgpt_client, fallback_result filename criteria, lg)
    /\ LogNoResponse ∈ lg.
Proof.
  intros Hmiss Hfail. unfold extract_metadata_and_scores, query, cache_get in *.
  rewrite (getitem_miss _ _ Hmiss).
  destruct (attempts_fail_null 3 (cache_key_of text) post (Z.to_nat 3) 0
              chatgpt_client) as [evs ->].
  { intros a Ha. apply Hfail. simpl in Ha. lia. }
  cbn [bind]. unfold merge_response. cbn [has_choices truthy bind].
  eexists. split; [reflexivity |]. first [by apply logged_before_account | by left].
Qed.

(** X14. When the response has choices but no content under them, or content
    that is not JSON, [extract_metadata_and_scores] catches the error, logs
    it and returns the rule-based result as it stands: nothing of the response
    reaches the metadata, the scores or the recommendations. *)
Theorem unreadable_answer_gives_fallback (text filename : pystr)
    (criteria : list criterion) (chatgpt_client client' : ChatGPTClient)
    (post : nat -> res json) (response : json) (evs : list event) :
  query chatgpt_client text 3 post = Ok (client', response, evs) ->
  has_choices response = Ok true ->
  response_content response = Raise KeyError
  \/ (exists s, response_content response = Ok (JStr s)
                /\ json_loads (strip (re_sub_code_fence s)) = None) ->
  exists lg e,
    extract_metadata_and_scores text filename criteria chatgpt_client post
    = Ok (client', fallback_result filename criteria, lg)
    /\ LogExtractionError e ∈ lg /\ (e = KeyError \/ e = JSONDecodeError).
Proof.
  intros Hq Hch Hbad. rewrite (extract_of_merge _ _ _ _ _ _ _ _ Hq).
  unfold merge_response. rewrite Hch. cbn [bind]. rewrite overlay_cases.
  destruct Hbad as [-> | (s & -> & Hs)].
  - cbn [is_caught bind fst snd]. eexists _, KeyError.
    split; [reflexivity |]. split; [| by left]. first [by apply logged_before_account | by left].
  - cbn [parse_content]. rewrite Hs. cbn [is_caught bind fst snd].
    eexists _, JSONDecodeError. split; [reflexivity |]. split; [| by right].
    first [by apply logged_before_account | by left].
Qed.

(** ** The extractor with an answer *)

Lemma stored_valid (s max : Z) (old : json) :
  1 <= s <= max ->
  stored_score (JInt s) max old = Ok (JInt s)
  /\ score_invalid (JInt s) max = Ok false.
Proof.
  intros H. unfold stored_score, effective_score, score_invalid.
  cbn [is_int negb py_lt py_gt bind].
  replace (s <? 0) with false by (symmetry; apply Z.ltb_ge; lia).
  replace (max <? s) with false by (symmetry; apply Z.ltb_ge; lia).
  cbn [bind py_gt].
  by replace (0 <? s) with true by (symmetry; apply Z.ltb_lt; lia).
Qed.

(** X15. With distinct criterion names, an integer score of
    [[1, max_score]] the AI proposed for a criterion of the list is stored as
    it is, in place of the fallback score, and logged with the reason of the
    AI without the correction note. *)
Theorem valid_score_is_kept (text filename : pystr)
    (criteria : list criterion) (chatgpt_client client' : ChatGPTClient)
    (post : nat -> res json) (response : json) (evs : list event)
    (r : ExtractionResult) (lg : list log_record) (c : criterion) (s : Z)
    (reason : json) :
  query chatgpt_client text 3 post = Ok (client', response, evs) ->
  extract_metadata_and_scores text filename criteria chatgpt_client post
  = Ok (client', r, lg) ->
  NoDup (map name criteria) ->
  c ∈ criteria ->
  ai_score response (name c) = Some (JInt s, reason) ->
  1 <= s <= max_score c ->
  scores r !! name c = Some (JInt s)
  /\ LogScore (name c) (JInt s) reason ∈ lg.
Proof.
  intros Hq H Hnd Hc Hai Hs.
  apply (extract_merge _ _ _ _ _ _ _ _ _ _ Hq) in H.
  apply merge_response_inv in H as (_ & _ & _ & H).
  specialize (H Hnd c Hc). rewrite Hai in H.
  destruct H as (v & Hv & Hlook & Hlog).
  destruct (stored_valid s (max_score c) (JInt (fallback_score c)) Hs) as [Hst Hinv].
  rewrite Hst in Hv. injection Hv as <-.
  unfold logged_reason in Hlog. rewrite Hinv in Hlog.
  by split.
Qed.

Lemma overlay_keys (criteria : list criterion) (response : json)
    (st0 : ExtractionResult * list log_record) (k : pystr) :
  (forall c, c ∈ criteria -> is_Some (scores (fst st0) !! name c)) ->
  k ∉ map name criteria ->
  scores (fst (fst (overlay criteria response st0))) !! k = scores (fst st0) !! k.
Proof.
  intros Hall Hk. rewrite overlay_cases.
  destruct (response_content response) as [content |]; [| done].
  destruct (parse_content content) as [parsed |]; [| done].
  destruct (is_dict parsed) eqn:Hd.
  2:{ destruct (overlay_not_object criteria parsed st0 Hd) as [Ho | Ho];
        cbv zeta in Ho; by rewrite Ho. }
  destruct parsed as [| | | | | | p]; try done.
  unfold and_then. rewrite overlay_metadata_obj, overlay_scores_obj.
  set (st1 := (match assoc (u "metadata") p with
               | Some (JObj m) => with_metadata (fst st0) (JObj m)
               | _ => fst st0
               end, snd st0)).
  assert (scores (fst st1) = scores (fst st0)) as Hs1.
  { unfold st1. by destruct (assoc (u "metadata") p) as [[| | | | | | m] |]. }
  assert (forall st2 (x : res unit),
            scores (fst st2) !! k = scores (fst st0) !! k ->
            scores (fst (fst match x with
                             | Ok _ => overlay_recommendations (JObj p) st2
                             | Raise e => (st2, Raise e)
                             end)) !! k = scores (fst st0) !! k) as Hrec.
  { intros st2 [[] | e] H2; [| done].
    destruct (overlay_recommendations_obj p st2) as [l ->]. cbn [fst].
    by destruct (assoc (u "recommendations") p) as [[| | | | | recs |] |];
      try destruct (accepts recs). }
  destruct (assoc (u "scores") p) as [[| | | | | | sc] |];
    try (apply (Hrec st1 (Ok tt)); by rewrite Hs1).
  assert (forall c, c ∈ criteria -> is_Some (scores (fst st1) !! name c)) as Hall1.
  { intros c Hc. rewrite Hs1. by apply Hall. }
  destruct (for_each_frame sc criteria st1 Hall1) as (_ & _ & Hframe & _).
  specialize (Hframe k Hk).
  destruct (for_each (overlay_score (JObj sc)) criteria st1) as [st2 x].
  apply Hrec. cbn [fst] in Hframe. by rewrite Hframe, Hs1.
Qed.

(** X16. The score mapping [extract_metadata_and_scores] returns has an
    entry for the criteria of the list and for nothing else: a score the AI
    gave under a name that is not a criterion of the list is dropped. *)
Theorem scores_only_for_criteria (text filename : pystr)
    (criteria : list criterion) (chatgpt_client client' : ChatGPTClient)
    (post : nat -> res json) (r : ExtractionResult) (lg : list log_record)
    (k : pystr) :
  extract_metadata_and_scores text filename criteria chatgpt_client post
  = Ok (client', r, lg) ->
  is_Some (scores r !! k) <-> k ∈ map name criteria.
Proof.
  intros H. apply extract_inv in H as (response & evs & _ & H). split.
  - intros Hsome. destruct (decide (k ∈ map name criteria)) as [| Hk]; [done |].
    exfalso. unfold merge_response in H.
    assert (scores (fallback_result filename criteria) !! k = None) as Hnone.
    { simpl. unfold evaluate_work_fallback. by rewrite fallback_fold_other. }
    destruct (has_choices response) as [[] |]; cbn [bind] in H; [| | done].
    + pose proof (overlay_keys criteria response
                    (fallback_result filename criteria, []) k) as Hkeys.
      cbn [fst] in Hkeys. rewrite Hnone in Hkeys.
      destruct (overlay criteria response (fallback_result filename criteria, []))
        as [st [[] | e]]; cbn [fst] in Hkeys.
      * injection H as <- _. rewrite Hkeys in Hsome; [by destruct Hsome | | done].
        intros c Hc. by apply fallback_lookup.
      * destruct (is_caught e); [| done]. injection H as <- _.
        rewrite Hkeys in Hsome; [by destruct Hsome | | done].
        intros c Hc. by apply fallback_lookup.
    + injection H as <- _. rewrite Hnone in Hsome. by destruct Hsome.
  - intros (c & -> & Hc)%list_elem_of_fmap.
    by apply merge_response_inv in H as (_ & _ & Hs & _); apply Hs.
Qed.

Lemma fallback_pair_valid (filename : pystr) :
  valid_pair (JArr (generate_recommendations_fallback filename)) = true.
Proof. vm_compute. reflexivity. Qed.

(** X17. The recommendations [extract_metadata_and_scores] returns always
    pass the test the code applies to those of the AI: two non-empty strings
    of at most 60 words together, each with a sentence terminator.  The two
    fixed fallback recommendations pass it themselves. *)
Theorem recommendations_always_valid (text filename : pystr)
    (criteria : list criterion) (chatgpt_client client' : ChatGPTClient)
    (post : nat -> res json) (r : ExtractionResult) (lg : list log_record) :
  extract_metadata_and_scores text filename criteria chatgpt_client post
  = Ok (client', r, lg) ->
  valid_pair (JArr (recommendations r)) = true
  /\ accepts (recommendations r) = true.
Proof.
  intros H. apply extract_inv in H as (response & evs & _ & H).
  apply merge_response_inv in H as (_ & Hr & _).
  assert (valid_pair (JArr (recommendations r)) = true) as Hv.
  { rewrite Hr. unfold expected_recommendations.
    destruct (ai_field response (u "recommendations")) as [candidate |];
      [| apply fallback_pair_valid].
    destruct (valid_pair candidate) eqn:Ev; [| apply fallback_pair_valid].
    destruct candidate as [| | | | | l |]; try done. }
  split; [exact Hv |]. by rewrite accepts_valid_pair.
Qed.

(** ** The criteria extractor, path by path *)

Lemma default_criteria_checked :
  forallb (fun c => (5 <? length (name c))%nat && (0 <=? max_score c))
          default_criteria = true.
Proof. vm_compute. reflexivity. Qed.

Lemma fallback_criteria_nonempty (text : pystr) :
  criteria_list (extract_criteria_fallback text) <> [].
Proof.
  unfold extract_criteria_fallback. set (found := concat _).
  by destruct found.
Qed.

(** X18. The regex fallback never returns an empty rubric: when no pattern
    matches it returns the seven default criteria.  Every criterion it
    returns has a name of more than 5 characters and a maximum score that is
    not negative, so the sum of the maximum scores is not negative either. *)
Theorem fallback_criteria_well_formed (text : pystr) :
  let d := extract_criteria_fallback text in
  criteria_list d <> []
  /\ (forall c, c ∈ criteria_list d ->
        (5 < length (name c))%nat /\ 0 <= max_score c)
  /\ (concat (map (fun i => criteria_of_pattern i (normalize_text text))
                  [0; 1; 2]%nat) = [] ->
      criteria_list d = default_criteria).
Proof.
  cbv zeta. unfold extract_criteria_fallback.
  set (found := concat _).
  assert (forall c, c ∈ found -> (5 < length (name c))%nat /\ 0 <= max_score c)
    as Hfound.
  { intros c Hc. unfold found in Hc. cbn [map concat] in Hc.
    assert (exists i, c ∈ criteria_of_pattern i (normalize_text text)) as [i Hi].
    { rewrite !elem_of_app in Hc.
      destruct Hc as [Hc | [Hc | [Hc | Hc%elem_of_nil]]]; [by eexists .. | done]. }
    unfold criteria_of_pattern in Hi.
    apply list_elem_of_omap in Hi as (m & _ & Hm).
    destruct (keep_name (strip (fst m))) eqn:Ek; [| done].
    injection Hm as <-. simpl. unfold keep_name in Ek.
    apply andb_true_iff in Ek as [Ek _]. apply Nat.ltb_lt in Ek. lia. }
  destruct found as [| c0 l] eqn:Ef; cbn [criteria_list].
  - split; [done |]. split; [| done].
    intros c Hc. pose proof default_criteria_checked as Hd.
    rewrite forallb_forall in Hd. specialize (Hd c).
    apply andb_true_iff in Hd as [H1 H2]; [| by apply list_elem_of_In].
    apply Nat.ltb_lt in H1. apply Z.leb_le in H2. done.
  - split; [done |]. split; [exact Hfound | done].
Qed.

Lemma parsed_has_choices (response parsed : json) :
  ai_parsed response = Some parsed ->
  exists content,
    has_choices response = Ok true
    /\ response_content response = Ok content
    /\ parse_content content = Ok parsed.
Proof.
  unfold ai_parsed. intros H.
  destruct (response_content response) as [content |] eqn:Ec; [| done].
  destruct (parse_content content) as [p |] eqn:Ep; [| done].
  injection H as ->. exists content. split; [| done].
  by eapply content_has_choices.
Qed.

(** X19. When the AI answers with a JSON object whose criteria are a list of
    items with integer maximum scores, [extract_criteria] returns that object
    as it is, but for [max_total_score], which it sets to the sum of the
    maximum scores when the declared total differs: the names, the maximum
    scores and every other field are those of the AI, unchecked. *)
Theorem ai_rubric_returned_as_is (text : pystr)
    (chatgpt_client client' : ChatGPTClient) (post : nat -> res json)
    (response : json) (evs : list event) (fields : list (pystr * json))
    (items : list json) (zs : list Z) :
  strip text <> [] ->
  query chatgpt_client text 3 post = Ok (client', response, evs) ->
  ai_parsed response = Some (JObj fields) ->
  get_or fields (u "criteria") (JArr []) = JArr items ->
  Forall2 (fun item z => getitem_str item (u "max_score") = Ok (JInt z)) items zs ->
  exists fields',
    extract_criteria text chatgpt_client post = Ok (client', JObj fields')
    /\ (forall k, k <> u "max_total_score" -> assoc k fields' = assoc k fields)
    /\ (fields' = fields
        \/ fields' = dict_set fields (u "max_total_score")
                       (JInt (fold_right Z.add 0 zs))).
Proof.
  intros Hne Hq Hparsed Hcrit Hz.
  destruct (parsed_has_choices _ _ Hparsed) as (content & Hch & Hc & Hp).
  unfold extract_criteria.
  destruct (strip text) as [| ch rest]; [done |].
  rewrite Hq. cbn [bind]. rewrite Hch. cbn [bind].
  unfold reconcile. rewrite Hc. cbn [bind]. rewrite Hp. cbn [bind dict_get].
  rewrite Hcrit. cbn [py_iter bind].
  rewrite (sum_max_score_ints _ _ Hz 0). cbn [bind]. rewrite Z.add_0_l.
  destruct (py_eq_num (get_or fields (u "max_total_score") (JInt 0))
                      (JInt (fold_right Z.add 0 zs))); cbn [negb setitem_str].
  - exists fields. split; [done |]. split; [done | by left].
  - eexists. split; [reflexivity |]. split; [| by right].
    intros k Hk. apply assoc_dict_set_ne. by apply pystr_eqb_false.
Qed.

(** X20. When the cache has no answer for a rubric text that is not blank
    and each of the three attempts fails with an HTTP error, a transport error
    or a timeout, [extract_criteria] returns what the regex fallback finds in
    the text, with the client unchanged; its criteria are a list that is not
    empty, so that [process_files] does not reject the rubric. *)
Theorem unavailable_ai_still_gives_criteria (text : pystr)
    (chatgpt_client : ChatGPTClient) (post : nat -> res json) :
  strip text <> [] ->
  cache_get chatgpt_client (cache_key_of text) = None ->
  (forall a, (a < 3)%nat -> exists e, post a = Raise e /\ is_client_error e = true) ->
  let d := criteria_data_json (extract_criteria_fallback text) in
  extract_criteria text chatgpt_client post = Ok (chatgpt_client, d)
  /\ exists crits,
       getitem_str d (u "criteria") = Ok (JArr crits)
       /\ crits = map criterion_json (criteria_list (extract_criteria_fallback text))
       /\ truthy (JArr crits) = true.
Proof.
  intros Hne Hmiss Hfail. cbv zeta. split.
  - unfold extract_criteria, query, cache_get in *.
    destruct (strip text) as [| ch rest]; [done |].
    rewrite (getitem_miss _ _ Hmiss).
    destruct (attempts_fail_null 3 (cache_key_of text) post (Z.to_nat 3) 0
                chatgpt_client) as [evs ->].
    { intros a Ha. apply Hfail. simpl in Ha. lia. }
    done.
  - eexists. split; [| split; [reflexivity |]].
    + unfold criteria_data_json, getitem_str. cbn [assoc].
      by rewrite pystr_eqb_refl.
    + pose proof (fallback_criteria_nonempty text) as Hnonempty.
      by destruct (criteria_list (extract_criteria_fallback text)).
Qed.

(** ** The cache key *)

(** X21. The cache key is made of the first 2000 characters of the text
    alone.  Once the answer to one text is stored, a query for any text with
    the same first 2000 characters returns that answer from the cache without
    a request, and [extract_metadata_and_scores] on such a text merges that
    answer, whatever the requests would have returned. *)
Theorem same_prefix_shares_answer (self : ChatGPTClient) (text text' : pystr)
    (retries : Z) (post : nat -> res json) (v : json) :
  prefix 2000 text' = prefix 2000 text ->
  cache_get self (cache_key_of text) = None ->
  0 < retries ->
  post 0%nat = Ok v ->
  fits self (json_dumps_len v) = true ->
  exists self' evs,
    query self text retries post = Ok (self', v, evs)
    /\ (forall retries' post',
          exists self'',
            query self' text' retries' post'
            = Ok (self'', v, [EvCacheHit (cache_key_of text)]))
    /\ (forall filename criteria post',
          exists self'',
            extract_metadata_and_scores text' filename criteria self' post'
            = bind (merge_response filename criteria v)
                   (fun '(result, log) => Ok (self'', result, log))).
Proof.
  intros Hpre Hmiss Hpos Hpost Hfit. unfold cache_get in *.
  assert (cache_key_of text' = cache_key_of text) as Hkey.
  { unfold cache_key_of. by rewrite Hpre. }
  unfold query at 1. rewrite (getitem_miss _ _ Hmiss).
  destruct (Z.to_nat retries) as [| fuel] eqn:Hfuel; [lia |].
  simpl. rewrite Hpost. unfold store_response. rewrite Hfit.
  eexists _, _. split; [reflexivity |].
  assert (forall retries' post',
            exists self'',
              query (insert_entry self (cache_key_of text) v (json_dumps_len v))
                    text' retries' post'
              = Ok (self'', v, [EvCacheHit (cache_key_of text)])) as Hhit.
  { intros retries' post'. unfold query, LRU.getitem. rewrite Hkey. simpl.
    rewrite assoc_setitem. eexists. reflexivity. }
  split; [exact Hhit |].
  intros filename criteria post'. destruct (Hhit 3 post') as [self'' Hq].
  exists self''. by apply (extract_of_merge _ _ _ _ _ _ _ _ Hq).
Qed.
End Properties.

(** * The properties on concrete inputs *)

Lemma criteria_ab_distinct : NoDup (map name criteria_ab).
Proof. refine (bool_decide_unpack _ _). vm_compute. exact I. Defined.





(** A score that is a text makes the extractor raise [TypeError]. *)
Lemma text_score_raises : evaluate answer_text_score = Raise TypeError.
Proof. vm_compute. reflexivity. Qed.



(** The AI declares a total of 10 for criteria that sum to 6: the returned
    dict carries 6. *)
Lemma ai_total_replaced :
  exists client' d,
    extract_criteria (rt := criteria_runtime) rubric_text fresh_client
      (answering answer_criteria) = Ok (client', d)
    /\ dict_get d (u "max_total_score") (JInt 0) = Ok (JInt 6).
Proof.
  eexists _, _. split; vm_compute; reflexivity.
Qed.


(** C4, counterexample. The AI proposes -1 for a criterion of maximum 4: the
    stored score is the fallback 3, not [max(0, min(-1, 4)) = 0]. *)
Lemma negative_score_keeps_fallback :
  ai_score (rt := example_runtime [answer_below_zero] [])
    (response_of (ask answer_below_zero)) (name criterion_a)
  = Some (JInt (-1), JStr (u "слабо"))
  /\ exists client' r lg,
       evaluate answer_below_zero = Ok (client', r, lg)
       /\ scores r !! name criterion_a = Some (JInt 3)
       /\ JInt 3 <> JInt (Z.max 0 (Z.min (-1) (max_score criterion_a))).
Proof.
  split; [vm_compute; reflexivity |].
  exists (client_of (evaluate answer_below_zero)),
    (result_of (evaluate answer_below_zero)),
    (log_of (evaluate answer_below_zero)).
  repeat split; try (vm_compute; reflexivity). vm_compute. discriminate.
Qed.

(** C4, witness: a score of 10 for a criterion of maximum 4 is stored as 4,
    with the correction note in the logged reason. *)
Lemma out_of_range_score_corrected_witness :
  scores (result_of (evaluate answer_above_max)) !! name criterion_a = Some (JInt 4)
  /\ LogScore (name criterion_a) (JInt 4) (JStr (correction_note ++ u "отлично"))
     ∈ log_of (evaluate answer_above_max).
Proof.
  refine (proj1 (out_of_range_score_corrected
                   (rt := example_runtime [answer_above_max] [])
                   work_text work_name criteria_ab fresh_client
                   (client_of (evaluate answer_above_max))
                   (answering answer_above_max)
                   (response_of (ask answer_above_max))
                   (events_of (ask answer_above_max))
                   (result_of (evaluate answer_above_max))
                   (log_of (evaluate answer_above_max))
                   criterion_a 10 (JStr (u "отлично"))
                   _ _ criteria_ab_distinct _ _) _ _).
  - vm_compute. reflexivity.
  - vm_compute. reflexivity.
  - by left.
  - vm_compute. reflexivity.
  - vm_compute. reflexivity.
  - vm_compute. discriminate.
Defined.


(** C6, witness: a valid pair is taken whole. *)
Lemma recommendations_all_or_nothing_witness :
  recommendations (result_of (evaluate answer_recommendations))
  = [JStr (u "Добавьте датчик для автоматизации модели.");
     JStr (u "Проведите опрос в другой школе.")].
Proof.
  refine (eq_trans
            (recommendations_all_or_nothing
               (rt := example_runtime [answer_recommendations] [])
               work_text work_name criteria_ab fresh_client
               (client_of (evaluate answer_recommendations))
               (answering answer_recommendations)
               (response_of (ask answer_recommendations))
               (events_of (ask answer_recommendations))
               (result_of (evaluate answer_recommendations))
               (log_of (evaluate answer_recommendations)) _ _) _).
  - vm_compute. reflexivity.
  - vm_compute. reflexivity.
  - vm_compute. reflexivity.
Defined.

(** A pair whose second entry has no sentence terminator is dropped whole. *)
Lemma incomplete_pair_rejected :
  recommendations (result_of (evaluate answer_one_recommendation))
  = generate_recommendations_fallback work_name.
Proof. vm_compute. reflexivity. Qed.

(** C7, witness: a first query of the text on a fresh client stores the
    response, and the cache then returns it. *)
Lemma cache_round_trip_witness :
  exists self' evs,
    ask answer_zero = Ok (self', completion (render answer_zero), evs)
    /\ cache_get self' (cache_key_of (rt := example_runtime [answer_zero] []) work_text)
       = Some (completion (render answer_zero)).
Proof.
  destruct (cache_round_trip (rt := example_runtime [answer_zero] [])
              fresh_client work_text 3 (answering answer_zero)
              (completion (render answer_zero)))
    as (self' & evs & Hq & Hget).
  - vm_compute. reflexivity.
  - vm_compute. reflexivity.
  - vm_compute. reflexivity.
  - exists self', evs. split; [exact Hq |].
    assert ((current_cache_size_bytes fresh_client
             + json_dumps_len (rt := example_runtime [answer_zero] [])
                 (completion (render answer_zero))
             <=? max_cache_size_bytes)%N = true) as Hfit
      by (vm_compute; reflexivity).
    rewrite Hfit in Hget. exact (proj1 Hget).
Defined.

(** C8, witness: three timeouts, and the query returns [None]. *)
Lemma query_never_raises_witness :
  exists self' r evs,
    query (rt := plain_runtime) fresh_client work_text 3 unavailable
    = Ok (self', r, evs)
    /\ r = JNull /\ self' = fresh_client.
Proof.
  destruct (query_never_raises (rt := plain_runtime) fresh_client work_text 3
              unavailable)
    as (self' & r & evs & Hq & Hnone).
  - intros a e H. injection H as <-. reflexivity.
  - exists self', r, evs. split; [exact Hq |]. apply Hnone.
    + vm_compute. reflexivity.
    + intros a _. reflexivity.
Defined.

